(** * claude-code-web: the streaming message use case and its schemas

    A shallow embedding of
    - [src/core/application/claude/sendMessageStream.ts]: the input schema
      and the [sendMessageStream] use case;
    - the domain schemas of the permission protocol
      ([permissionErrorKeywordsSchema], [allowedToolSchema],
      [permissionRequestSchema], [continueMessageSchema],
      [authorizationStateSchema]).

    JavaScript values are modelled as a small inductive type, strings as
    sequences of UTF-16 code units, zod schemas as parsing functions, and the
    asynchronous use case as a state-passing computation over the world of
    its collaborators (session repository, Claude service) that records
    every collaborator call and every [console.error] in a trace. *)

From Stdlib Require Import String Ascii NArith List Bool Arith Lia.
From Stdlib Require Import Floats.SpecFloat.
Import ListNotations.

Set Implicit Arguments.
Set Warnings "-register-all".
Local Open Scope string_scope.
Local Open Scope list_scope.

(* ===================================================================== *)
(** ** JavaScript strings and values *)
(* ===================================================================== *)

(** A JavaScript string is a sequence of UTF-16 code units. *)
Definition code_unit := N.
Definition jsstring := list code_unit.

(** The string literal written in the source, as code units. *)
Definition js (s : string) : jsstring :=
  map N_of_ascii (list_ascii_of_string s).

Fixpoint js_eqb (s t : jsstring) : bool :=
  match s, t with
  | [], [] => true
  | a :: s', b :: t' => N.eqb a b && js_eqb s' t'
  | _, _ => false
  end.

(** [s.length] *)
Definition js_length (s : jsstring) : nat := length s.

(** Truthiness of a string: every string but the empty one. *)
Definition truthy_string (s : jsstring) : bool :=
  match s with [] => false | _ :: _ => true end.

(** Truthiness of a [string | undefined]. *)
Definition truthy (o : option jsstring) : bool :=
  match o with Some s => truthy_string s | None => false end.

(** Runtime values: what a caller can pass where the types are erased. *)
Inductive JsValue : Type :=
| JsUndefined
| JsNull
| JsBoolean (b : bool)
| JsNumber (x : spec_float)
| JsString (s : jsstring)
| JsArray (items : list JsValue)
| JsObject (fields : list (jsstring * JsValue)).

(** Own-property lookup in a field list. *)
Fixpoint lookup_field (k : jsstring) (fields : list (jsstring * JsValue))
  : option JsValue :=
  match fields with
  | [] => None
  | (k', v) :: rest => if js_eqb k k' then Some v else lookup_field k rest
  end.

(** [v[k]] on an object; a missing key reads as [undefined]. *)
Definition js_get (v : JsValue) (k : string) : JsValue :=
  match v with
  | JsObject fields =>
      match lookup_field (js k) fields with
      | Some x => x
      | None => JsUndefined
      end
  | _ => JsUndefined
  end.

(* ===================================================================== *)
(** ** neverthrow's [Result] *)
(* ===================================================================== *)

Inductive Result (T E : Type) : Type :=
| ok (value : T)
| err (error : E).
Arguments ok {T E} value.
Arguments err {T E} error.

Definition isErr {T E} (r : Result T E) : bool :=
  match r with ok _ => false | err _ => true end.

Definition isOk {T E} (r : Result T E) : bool := negb (isErr r).

(* ===================================================================== *)
(** ** Regular expressions (anchored, without flags) *)
(* ===================================================================== *)

Module Regex.

(** The fragment of the regular-expression syntax that the source uses:
    classes of one code unit, concatenation and iteration. [Void] and
    [Alt] only arise as derivatives. *)
Inductive regex : Type :=
| Void
| Eps
| Class (p : code_unit -> bool)
| Cat (r1 r2 : regex)
| Alt (r1 r2 : regex)
| Star (r : regex).

(** [r+] *)
Definition Plus (r : regex) : regex := Cat r (Star r).

Definition in_range (lo hi : string) (c : code_unit) : bool :=
  match js lo, js hi with
  | [l], [h] => N.leb l c && N.leb c h
  | _, _ => false
  end.

(** A literal character, e.g. [\(]. *)
Definition is_char (ch : string) (c : code_unit) : bool :=
  match js ch with
  | [x] => N.eqb c x
  | _ => false
  end.

(** Line terminators: LF, CR, U+2028 and U+2029. *)
Definition line_terminator (c : code_unit) : bool :=
  N.eqb c 10 || N.eqb c 13 || N.eqb c 8232 || N.eqb c 8233.

(** [.] without the [s] flag: any code unit but a line terminator. *)
Definition dot (c : code_unit) : bool := negb (line_terminator c).

Fixpoint nullable (r : regex) : bool :=
  match r with
  | Void => false
  | Eps => true
  | Class _ => false
  | Cat r1 r2 => nullable r1 && nullable r2
  | Alt r1 r2 => nullable r1 || nullable r2
  | Star _ => true
  end.

(** Brzozowski derivative of [r] by the code unit [c]. *)
Fixpoint deriv (c : code_unit) (r : regex) : regex :=
  match r with
  | Void => Void
  | Eps => Void
  | Class p => if p c then Eps else Void
  | Cat r1 r2 =>
      if nullable r1
      then Alt (Cat (deriv c r1) r2) (deriv c r2)
      else Cat (deriv c r1) r2
  | Alt r1 r2 => Alt (deriv c r1) (deriv c r2)
  | Star r1 => Cat (deriv c r1) (Star r1)
  end.

(** [/^r$/.test(s)]: does the whole string match? *)
Fixpoint test (r : regex) (s : jsstring) : bool :=
  match s with
  | [] => nullable r
  | c :: s' => test (deriv c r) s'
  end.

(** The language of a regular expression, declaratively. *)
Inductive matches : regex -> jsstring -> Prop :=
| m_eps : matches Eps []
| m_class p c : p c = true -> matches (Class p) [c]
| m_cat r1 r2 s1 s2 :
    matches r1 s1 -> matches r2 s2 -> matches (Cat r1 r2) (s1 ++ s2)
| m_alt_l r1 r2 s : matches r1 s -> matches (Alt r1 r2) s
| m_alt_r r1 r2 s : matches r2 s -> matches (Alt r1 r2) s
| m_star_nil r : matches (Star r) []
| m_star_cons r s1 s2 :
    matches r s1 -> matches (Star r) s2 -> matches (Star r) (s1 ++ s2).

End Regex.

(* ===================================================================== *)
(** ** zod schemas as parsing functions *)
(* ===================================================================== *)

(** An issue of a failed parse: what went wrong and where. The library
    reports more detail (expected types, bounds); the use case only wraps
    the report, so the code and the path are kept. *)
Inductive PathKey : Type :=
| Key (k : string)
| Index (i : nat).

Inductive IssueCode : Type :=
| invalid_type
| too_small
| invalid_format
| invalid_value
| invalid_union
| custom (message : string).

Record ZodIssue : Type := { code : IssueCode; path : list PathKey }.

Definition ZodError := list ZodIssue.

(** A schema with output type [A]: [safeParse] as a function. *)
Definition ZodType (A : Type) := JsValue -> Result A ZodError.

Definition issue (c : IssueCode) : ZodError := [ {| code := c; path := [] |} ].

Definition at_path (k : PathKey) (e : ZodError) : ZodError :=
  map (fun i => {| code := code i; path := k :: path i |}) e.

(** [z.string()] *)
Definition z_string : ZodType jsstring :=
  fun v => match v with JsString s => ok s | _ => err (issue invalid_type) end.

(** [.min(n)] on a string schema *)
Definition z_min (n : nat) (t : ZodType jsstring) : ZodType jsstring :=
  fun v =>
    match t v with
    | ok s => if Nat.leb n (js_length s) then ok s else err (issue too_small)
    | err e => err e
    end.

(** [.regex(/^r$/)] on a string schema *)
Definition z_regex (r : Regex.regex) (t : ZodType jsstring) : ZodType jsstring :=
  fun v =>
    match t v with
    | ok s => if Regex.test r s then ok s else err (issue invalid_format)
    | err e => err e
    end.

(** [z.boolean()] *)
Definition z_boolean : ZodType bool :=
  fun v => match v with JsBoolean b => ok b | _ => err (issue invalid_type) end.

(** [z.literal("...")] *)
Definition z_literal (l : string) : ZodType jsstring :=
  fun v =>
    match v with
    | JsString s => if js_eqb s (js l) then ok s else err (issue invalid_value)
    | _ => err (issue invalid_value)
    end.

(** [z.any()] *)
Definition z_any : ZodType JsValue := fun v => ok v.

(** [.optional()] *)
Definition z_optional {A} (t : ZodType A) : ZodType (option A) :=
  fun v =>
    match v with
    | JsUndefined => ok None
    | _ => match t v with ok a => ok (Some a) | err e => err e end
    end.

(** [.nullable()] *)
Definition z_nullable {A} (t : ZodType A) : ZodType (option A) :=
  fun v =>
    match v with
    | JsNull => ok None
    | _ => match t v with ok a => ok (Some a) | err e => err e end
    end.

(** [z.union([...])]: the first option that accepts the value. *)
Fixpoint z_union {A} (options : list (ZodType A)) : ZodType A :=
  fun v =>
    match options with
    | [] => err (issue invalid_union)
    | t :: rest =>
        match t v with
        | ok a => ok a
        | err _ => z_union rest v
        end
    end.

(** Two parses of one object, with the issues of both. *)
Definition z_and {A B} (ra : Result A ZodError) (rb : Result B ZodError)
  : Result (A * B) ZodError :=
  match ra, rb with
  | ok a, ok b => ok (a, b)
  | err e1, err e2 => err (e1 ++ e2)
  | err e1, ok _ => err e1
  | ok _, err e2 => err e2
  end.

Fixpoint parse_items {A} (t : ZodType A) (i : nat) (items : list JsValue)
  : Result (list A) ZodError :=
  match items with
  | [] => ok []
  | v :: rest =>
      match z_and (match t v with
                   | ok a => ok a
                   | err e => err (at_path (Index i) e)
                   end)
                  (parse_items t (S i) rest) with
      | ok (a, l) => ok (a :: l)
      | err e => err e
      end
  end.

(** [z.array(t)] *)
Definition z_array {A} (t : ZodType A) : ZodType (list A) :=
  fun v =>
    match v with
    | JsArray items => parse_items t 0 items
    | _ => err (issue invalid_type)
    end.

(** The own key that the record parser passes over. *)
Definition is_proto (k : jsstring) : bool := js_eqb k (js "__proto__").

(** The entries of an object but for an own key [__proto__]. *)
Definition without_proto {V} (entries : list (jsstring * V))
  : list (jsstring * V) :=
  filter (fun kv => negb (is_proto (fst kv))) entries.

(** The entries of a record, one by one: an own key [__proto__] is skipped,
    every other key and its value are parsed and kept. *)
Fixpoint parse_entries {V} (tk : ZodType jsstring) (tv : ZodType V)
  (fields : list (jsstring * JsValue)) : Result (list (jsstring * V)) ZodError :=
  match fields with
  | [] => ok []
  | (k, v) :: rest =>
      if is_proto k then parse_entries tk tv rest
      else
        match z_and (z_and (tk (JsString k)) (tv v))
                    (parse_entries tk tv rest) with
        | ok (kv, l) => ok (kv :: l)
        | err e => err e
        end
  end.

(** [z.record(tk, tv)] *)
Definition z_record {V} (tk : ZodType jsstring) (tv : ZodType V)
  : ZodType (list (jsstring * V)) :=
  fun v =>
    match v with
    | JsObject fields => parse_entries tk tv fields
    | _ => err (issue invalid_type)
    end.

(** One property of the shape of a [z.object]: the schema applied to
    [input[k]], its issues reported under the key. *)
Definition z_field {A} (input : JsValue) (k : string) (t : ZodType A)
  : Result A ZodError :=
  match t (js_get input k) with
  | ok a => ok a
  | err e => err (at_path (Key k) e)
  end.

(** [z.object({...})]: the input must be an object; unknown keys are
    dropped since [shape] only reads the keys it names. *)
Definition z_object {A} (shape : JsValue -> Result A ZodError) : ZodType A :=
  fun v =>
    match v with
    | JsObject _ => shape v
    | _ => err (issue invalid_type)
    end.

(** [.refine(check, {message, path})], evaluated on the parsed value. *)
Definition z_refine {A} (check : A -> bool) (message : string)
  (where_ : list PathKey) (t : ZodType A) : ZodType A :=
  fun v =>
    match t v with
    | ok a =>
        if check a then ok a
        else err [ {| code := custom message; path := where_ |} ]
    | err e => err e
    end.

Definition z_map {A B} (f : A -> B) (r : Result A ZodError) : Result B ZodError :=
  match r with ok a => ok (f a) | err e => err e end.

(* ===================================================================== *)
(** ** Domain schemas of the permission protocol *)
(* ===================================================================== *)

Definition permissionErrorKeywordsSchema : ZodType jsstring :=
  z_union [ z_literal "requested permissions";
            z_literal "haven't granted it yet";
            z_literal "permission denied" ].

(** Support all tool types, not just specific ones *)
Definition toolTypeSchema : ZodType jsstring := z_string.

(** [[A-Za-z_]] *)
Definition name_start (c : code_unit) : bool :=
  Regex.in_range "A" "Z" c || Regex.in_range "a" "z" c || Regex.is_char "_" c.

(** [[A-Za-z0-9_]] *)
Definition name_char (c : code_unit) : bool :=
  Regex.in_range "A" "Z" c || Regex.in_range "a" "z" c
  || Regex.in_range "0" "9" c || Regex.is_char "_" c.

(** [/^[A-Za-z_][A-Za-z0-9_]*\(.+\)$/] *)
Definition allowedTool_regex : Regex.regex :=
  Regex.Cat (Regex.Class name_start)
    (Regex.Cat (Regex.Star (Regex.Class name_char))
       (Regex.Cat (Regex.Class (Regex.is_char "("))
          (Regex.Cat (Regex.Plus (Regex.Class Regex.dot))
             (Regex.Class (Regex.is_char ")"))))).

Definition allowedToolSchema : ZodType jsstring :=
  z_regex allowedTool_regex z_string.

Record ToolUse : Type := {
  tu_id : jsstring;
  tu_name : jsstring;
  tu_input : list (jsstring * JsValue)
}.

Record PermissionRequest : Type := {
  toolName : jsstring;
  toolCommand : jsstring;
  originalToolUse : ToolUse
}.

Definition permissionRequestSchema : ZodType PermissionRequest :=
  z_object (fun o =>
    z_map (fun '(n, (c, u)) =>
             {| toolName := n; toolCommand := c; originalToolUse := u |})
      (z_and (z_field o "toolName" toolTypeSchema)
      (z_and (z_field o "toolCommand" z_string)
             (z_field o "originalToolUse"
                (z_object (fun u =>
                   z_map (fun '(i, (n, inp)) =>
                            {| tu_id := i; tu_name := n; tu_input := inp |})
                     (z_and (z_field u "id" z_string)
                     (z_and (z_field u "name" z_string)
                            (z_field u "input" (z_record z_string z_any)))))))))).

Record ContinueMessage : Type := {
  cm_message : jsstring;
  cm_allowedTools : list jsstring
}.

Definition continueMessageSchema : ZodType ContinueMessage :=
  z_object (fun o =>
    z_map (fun '(m, a) => {| cm_message := m; cm_allowedTools := a |})
      (z_and (z_field o "message" (z_literal "continue"))
             (z_field o "allowedTools" (z_array allowedToolSchema)))).

Record AuthorizationState : Type := {
  isWaitingForPermission : bool;
  pendingRequest : option PermissionRequest
}.

Definition authorizationStateSchema : ZodType AuthorizationState :=
  z_object (fun o =>
    z_map (fun '(w, p) => {| isWaitingForPermission := w; pendingRequest := p |})
      (z_and (z_field o "isWaitingForPermission" z_boolean)
             (z_field o "pendingRequest" (z_nullable permissionRequestSchema)))).

(* ===================================================================== *)
(** ** The input schema of the use case *)
(* ===================================================================== *)

Record SendMessageStreamInput : Type := {
  message : jsstring;
  sessionId : option jsstring;
  cwd : option jsstring;
  allowedTools : option (list jsstring);
  bypassPermissions : option bool
}.

(** The predicate given to [.refine]:
    if no sessionId is provided (new session), cwd is required. *)
Definition cwd_given_for_new_session (data : SendMessageStreamInput) : bool :=
  if negb (truthy (sessionId data)) && negb (truthy (cwd data))
  then false
  else true.

Definition sendMessageStreamInputSchema : ZodType SendMessageStreamInput :=
  z_refine cwd_given_for_new_session
    "cwd is required when creating a new session (no sessionId provided)"
    [Key "cwd"]
    (z_object (fun o =>
       z_map (fun '(m, (s, (c, (a, b)))) =>
                {| message := m; sessionId := s; cwd := c;
                   allowedTools := a; bypassPermissions := b |})
         (z_and (z_field o "message" (z_min 1 z_string))
         (z_and (z_field o "sessionId" (z_optional (z_min 1 z_string)))
         (z_and (z_field o "cwd" (z_optional (z_min 1 z_string)))
         (z_and (z_field o "allowedTools" (z_optional (z_array z_string)))
                (z_field o "bypassPermissions" (z_optional z_boolean)))))))).

(* ===================================================================== *)
(** ** Domain and library types the use case imports *)
(* ===================================================================== *)

(** Modelled from the spec: the session record of
    [@/core/domain/session/types], "{ id: opaque non-empty string,
    projectId: optional reference, name: optional string, cwd:
    working-directory path string }". [null] is [None]. The same four
    fields are the argument of [upsert]. *)
Module Session.
Definition Id := jsstring.
Record t : Type := {
  id : Id;
  projectId : option jsstring;
  name : option jsstring;
  cwd : jsstring
}.
End Session.

(** Modelled from the spec: [sessionIdSchema] of
    [@/core/domain/session/types]; a session id is an "opaque non-empty
    string". *)
Definition sessionIdSchema : ZodType Session.Id := z_min 1 z_string.

(** Modelled from the spec: the structured messages of
    [@/core/domain/claude/types], "one variant of which is a result message
    carrying the agent-assigned session identifier". *)
Inductive SDKMessage : Type :=
| ResultMessage (session_id : jsstring) (rest : JsValue)
| OtherMessage (content : JsValue).

(** Modelled from the spec: the type guard [isResultMessage] of
    [@/core/domain/claude/types]. *)
Definition isResultMessage (m : SDKMessage) : bool :=
  match m with ResultMessage _ _ => true | OtherMessage _ => false end.

(** Modelled from the spec: [validate] of [@/lib/validation], a pure
    function "mapping raw input to one of {validated value,
    ValidationError(detail)}". *)
Record ValidationError : Type := { detail : ZodError }.

Definition validate {A} (schema : ZodType A) (data : JsValue)
  : Result A ValidationError :=
  match schema data with
  | ok v => ok v
  | err e => err {| detail := e |}
  end.

(** What a [throw] carries: the [ZodError] of a failed [.parse], or any
    value a collaborator throws. *)
Inductive Thrown : Type :=
| ThrownZodError (e : ZodError)
| ThrownValue (v : JsValue).

(** The second argument of [new ApplicationError(message, cause)]: a
    validation error, the error value of a collaborator's [err], or a
    caught exception. *)
Inductive Cause : Type :=
| CauseValidation (e : ValidationError)
| CauseError (e : JsValue)
| CauseThrown (t : Thrown).

(** Modelled from the spec: [ApplicationError] of [@/lib/error], the one
    error class of the application layer; it is told apart by its message
    and carries "the original cause attached for diagnostics". *)
Record ApplicationError : Type := {
  error_message : string;
  error_cause : option Cause
}.

(** The parameters of [claudeService.sendMessageStream]. *)
Module Claude.
Record SendMessageInput : Type := {
  message : jsstring;
  sessionId : option jsstring;
  cwd : option jsstring;
  allowedTools : option (list jsstring);
  bypassPermissions : option bool
}.
End Claude.

(** The value of a successful call. *)
Record Output : Type := {
  session : Session.t;
  messages : list SDKMessage
}.

Definition Outcome := Result Output ApplicationError.

(** A settled promise. *)
Inductive Promise (A : Type) : Type :=
| Fulfilled (value : A)
| Rejected (reason : Thrown).
Arguments Fulfilled {A} value.
Arguments Rejected {A} reason.

(** What the use case does to the outside, in order. *)
Inductive Event : Type :=
| FindById (id : Session.Id)
| Upsert (s : Session.t)
| ClaudeSendMessageStream (p : Claude.SendMessageInput)
| ConsoleError (label : string) (e : ApplicationError).

(** [a || b] on [string | undefined] operands. *)
Definition js_or (a b : option jsstring) : option jsstring :=
  if truthy a then a else b.

(** [.filter((id): id is string => id !== null)] *)
Definition not_null (ids : list (option jsstring)) : list (option jsstring) :=
  filter (fun id => match id with Some _ => true | None => false end) ids.

(** [xs[0]] on an array of [string | null], as a runtime value. *)
Definition index0 (xs : list (option jsstring)) : JsValue :=
  match xs with
  | [] => JsUndefined
  | Some s :: _ => JsString s
  | None :: _ => JsNull
  end.

(** The session id the use case reads off the messages (lines 123-127). *)
Definition extractSessionId (msgs : list SDKMessage) : JsValue :=
  index0 (not_null
    (map (fun message =>
            match message with
            | ResultMessage session_id _ => Some session_id
            | OtherMessage _ => None
            end) msgs)).

(* ===================================================================== *)
(** ** The control-flow monad *)
(* ===================================================================== *)

(** How a statement completes: normally with a value, by [return], or by
    [throw]. *)
Inductive Step (A : Type) : Type :=
| Next (a : A)
| Return (r : Outcome)
| Throw (t : Thrown).
Arguments Next {A} a.
Arguments Return {A} r.
Arguments Throw {A} t.

Section UseCase.

(** The world of the collaborators (database, agent process, the
    receiver of the chunks) and the chunks they relay. *)
Variables (W ChunkData : Type).

Definition Sink := ChunkData -> W -> W.

(** Modelled from the spec: [Context] of [../context], the collaborators
    of the use case, "findById(id) -> Result<Session | absent, Cause>",
    "upsert({id, projectId, name, cwd}) -> Result<Session, Cause>" and
    "sendMessageStream(params, onChunk) -> Result<StructuredMessage[],
    UpstreamCause>". Each call returns a promise, which fulfils with a
    [Result] or rejects; a cause is any value. *)
Record Context : Type := {
  sessionRepository_findById :
    Session.Id -> W -> Promise (Result (option Session.t) JsValue) * W;
  sessionRepository_upsert :
    Session.t -> W -> Promise (Result Session.t JsValue) * W;
  claudeService_sendMessageStream :
    Claude.SendMessageInput -> Sink -> W
    -> Promise (Result (list SDKMessage) JsValue) * W
}.

Record State : Type := { world : W; trace : list Event }.

Definition record (ev : Event) (st : State) : State :=
  {| world := world st; trace := trace st ++ [ev] |}.

Definition M (A : Type) := State -> Step A * State.

Definition ret {A} (a : A) : M A := fun st => (Next a, st).

Definition bind {A B} (m : M A) (k : A -> M B) : M B :=
  fun st =>
    match m st with
    | (Next a, st') => k a st'
    | (Return r, st') => (Return r, st')
    | (Throw t, st') => (Throw t, st')
    end.

Definition return_ {A} (r : Outcome) : M A := fun st => (Return r, st).

Definition throw {A} (t : Thrown) : M A := fun st => (Throw t, st).

(** [try { body } catch (error) { handler }] *)
Definition try_catch {A} (body : M A) (handler : Thrown -> M A) : M A :=
  fun st =>
    match body st with
    | (Throw t, st') => handler t st'
    | other => other
    end.

(** [await call]: the call is recorded, the world moves on, and a
    rejected promise throws. *)
Definition await {A} (ev : Event) (call : W -> Promise A * W) : M A :=
  fun st =>
    let (p, w) := call (world st) in
    let st' := {| world := w; trace := trace st ++ [ev] |} in
    match p with
    | Fulfilled a => (Next a, st')
    | Rejected t => (Throw t, st')
    end.

(** [console.error(label, ..., error)] *)
Definition console_error (label : string) (e : ApplicationError) : M unit :=
  fun st => (Next tt, record (ConsoleError label e) st).

(** [schema.parse(v)]: the value, or a thrown [ZodError]. *)
Definition z_parse {A} (schema : ZodType A) (v : JsValue) : M A :=
  match schema v with
  | ok a => ret a
  | err e => throw (ThrownZodError e)
  end.

(** An [async] function whose every path ends in [return] or [throw]:
    the promise it gives back. *)
Definition async (body : M Empty_set) (st : State) : Promise Outcome * State :=
  match body st with
  | (Next a, _) => match a with end
  | (Return r, st') => (Fulfilled r, st')
  | (Throw t, st') => (Rejected t, st')
  end.

End UseCase.

Arguments ret {W A} a _.
Arguments return_ {W A} r _.
Arguments throw {W A} t _.
Arguments console_error {W} label e _.
Arguments z_parse {W A} schema v _.

Declare Scope js_scope.
Delimit Scope js_scope with js.
Notation "x <- m ;; k" := (bind m (fun x => k))
  (at level 61, m at next level, right associativity) : js_scope.
Notation "m ;; k" := (bind m (fun _ => k))
  (at level 61, right associativity) : js_scope.

(* ===================================================================== *)
(** ** The use case: [sendMessageStream] *)
(* ===================================================================== *)

Section SendMessageStream.

Variables (W ChunkData : Type).
Local Open Scope js_scope.

(** Lines 54-86: the session of an existing conversation. *)
Definition resolveSession (context : Context W ChunkData)
  (params : SendMessageStreamInput) : M W (option Session.t) :=
  match sessionId params with
  | Some sid =>
      if truthy_string sid then
        (* Existing session: fetch from database *)
        parsedSessionId <- z_parse sessionIdSchema (JsString sid) ;;
        sessionResult <-
          await (FindById parsedSessionId)
                (sessionRepository_findById context parsedSessionId) ;;
        match sessionResult with
        | err e =>
            let error := {| error_message := "Failed to get session";
                            error_cause := Some (CauseError e) |} in
            console_error "[sendMessageStream] Session retrieval failed" error ;;
            return_ (err error)
        | ok None =>
            let error := {| error_message := "Session not found";
                            error_cause := None |} in
            console_error "[sendMessageStream] Session not found" error ;;
            return_ (err error)
        | ok (Some value) => ret (Some value)
        end
      else ret None
  | None => ret None
  end.

(** Lines 89-98: the parameters handed to the Claude service. *)
Definition claudeParams (params : SendMessageStreamInput)
  (session : option Session.t) : Claude.SendMessageInput :=
  {| Claude.message := message params;
     (* Use session ID for resuming, undefined for new sessions *)
     Claude.sessionId :=
       js_or (match session with
              | Some s => Some (Session.id s)
              | None => None
              end) None;
     Claude.cwd :=
       js_or (cwd params)
             (match session with
              | Some s => Some (Session.cwd s)
              | None => None
              end);
     Claude.allowedTools := allowedTools params;
     Claude.bypassPermissions := bypassPermissions params |}.

(** Lines 113-144: on a new conversation, the session is created under
    the id the agent reported. *)
Definition createSession (context : Context W ChunkData)
  (params : SendMessageStreamInput) (claudeResult_value : list SDKMessage)
  (session : option Session.t) : M W (option Session.t) :=
  if negb (truthy (sessionId params)) then
    match cwd params with
    | Some params_cwd =>
        if negb (truthy_string params_cwd) then
          let error :=
            {| error_message := "cwd is required when creating a new session";
               error_cause := None |} in
          console_error "[sendMessageStream] Missing cwd for new session" error ;;
          return_ (err error)
        else
          let sessionId := extractSessionId claudeResult_value in
          parsedSessionId <- z_parse sessionIdSchema sessionId ;;
          createSessionResult <-
            (let record :=
               {| Session.id := parsedSessionId;
                  Session.projectId := None;
                  Session.name := None;
                  Session.cwd := params_cwd |} in
             await (Upsert record) (sessionRepository_upsert context record)) ;;
          match createSessionResult with
          | err e =>
              let error := {| error_message := "Failed to create session";
                              error_cause := Some (CauseError e) |} in
              console_error "[sendMessageStream] Session creation failed" error ;;
              return_ (err error)
          | ok value => ret (Some value)
          end
    | None =>
        let error :=
          {| error_message := "cwd is required when creating a new session";
             error_cause := None |} in
        console_error "[sendMessageStream] Missing cwd for new session" error ;;
        return_ (err error)
    end
  else ret session.

(** Lines 54-166: the body of the [try]. *)
Definition sendMessageStream_try (context : Context W ChunkData)
  (params : SendMessageStreamInput) (onChunk : Sink W ChunkData)
  : M W Empty_set :=
  session <- resolveSession context params ;;
  (* Send to Claude with streaming *)
  claudeResult <-
    (let p := claudeParams params session in
     await (ClaudeSendMessageStream p)
           (claudeService_sendMessageStream context p onChunk)) ;;
  messages <-
    match claudeResult with
    | err e =>
        let error := {| error_message := "Failed to send message to Claude";
                        error_cause := Some (CauseError e) |} in
        console_error "[sendMessageStream] Claude API streaming call failed" error ;;
        return_ (err error)
    | ok value => ret value
    end ;;
  session <- createSession context params messages session ;;
  match session with
  | None =>
      return_ (err {| error_message := "Session was not created or found";
                      error_cause := None |})
  | Some session =>
      (* Update session after successful Claude communication *)
      updateSessionResult <-
        (let record :=
           {| Session.id := Session.id session;
              Session.projectId := Session.projectId session;
              Session.name := Session.name session;
              Session.cwd := Session.cwd session |} in
         await (Upsert record) (sessionRepository_upsert context record)) ;;
      let session :=
        match updateSessionResult with
        | err _ =>
            (* Don't fail the entire operation for session update failure *)
            session
        | ok value => value
        end in
      return_ (ok {| session := session; messages := messages |})
  end.

(** Lines 37-175. *)
Definition sendMessageStream_body (context : Context W ChunkData)
  (input : JsValue) (onChunk : Sink W ChunkData) : M W Empty_set :=
  let parseResult := validate sendMessageStreamInputSchema input in
  match parseResult with
  | err e =>
      let error := {| error_message := "Invalid input";
                      error_cause := Some (CauseValidation e) |} in
      console_error "[sendMessageStream] Input validation failed" error ;;
      return_ (err error)
  | ok params =>
      try_catch
        (sendMessageStream_try context params onChunk)
        (fun error =>
           let appError :=
             {| error_message := "Unexpected error in sendMessageStream";
                error_cause := Some (CauseThrown error) |} in
           console_error "[sendMessageStream] Unexpected error occurred" appError ;;
           return_ (err appError))
  end.

(** The exported [async function sendMessageStream]. *)
Definition sendMessageStream (context : Context W ChunkData)
  (input : JsValue) (onChunk : Sink W ChunkData) (st : State W)
  : Promise Outcome * State W :=
  async (sendMessageStream_body context input onChunk) st.

(** One call from a given world, with a fresh trace. *)
Definition run (context : Context W ChunkData) (input : JsValue)
  (onChunk : Sink W ChunkData) (w : W) : Promise Outcome * State W :=
  sendMessageStream context input onChunk {| world := w; trace := [] |}.

End SendMessageStream.

(* ===================================================================== *)
(** ** Collaborators for concrete runs *)
(* ===================================================================== *)

(** An in-memory session repository and a scripted agent, as a test would
    stub them. The repository keeps its records in a list; single calls can
    be made to fail or to throw. *)
Module Stub.

Record World : Type := {
  sessions : list Session.t;     (* the stored records, newest first *)
  upserts : nat;                 (* how many upserts were issued *)
  delivered : list jsstring      (* the chunks the sink received *)
}.

Definition empty : World :=
  {| sessions := []; upserts := 0; delivered := [] |}.

Definition holding (l : list Session.t) : World :=
  {| sessions := l; upserts := 0; delivered := [] |}.

(** The sink of the caller: it keeps what it is given. *)
Definition onChunk : Sink World jsstring :=
  fun chunk w =>
    {| sessions := sessions w; upserts := upserts w;
       delivered := delivered w ++ [chunk] |}.

Record Script : Type := {
  (* the lookup answers this instead of searching the store *)
  lookup_override : option (Promise (Result (option Session.t) JsValue));
  (* the k-th upsert answers this instead of storing the record *)
  upsert_override : nat -> option (Promise (Result Session.t JsValue));
  (* the chunks the agent emits and what its call settles to *)
  emits : list jsstring;
  reply : Promise (Result (list SDKMessage) JsValue)
}.

Definition findById (sc : Script) (id : Session.Id) (w : World)
  : Promise (Result (option Session.t) JsValue) * World :=
  match lookup_override sc with
  | Some answer => (answer, w)
  | None =>
      (Fulfilled (ok (find (fun s => js_eqb (Session.id s) id) (sessions w))), w)
  end.

Definition upsert (sc : Script) (record : Session.t) (w : World)
  : Promise (Result Session.t JsValue) * World :=
  match upsert_override sc (upserts w) with
  | Some answer =>
      (answer,
       {| sessions := sessions w; upserts := S (upserts w);
          delivered := delivered w |})
  | None =>
      (Fulfilled (ok record),
       {| sessions :=
            record
              :: filter (fun s => negb (js_eqb (Session.id s) (Session.id record)))
                   (sessions w);
          upserts := S (upserts w);
          delivered := delivered w |})
  end.

Definition sendMessageStream (sc : Script) (p : Claude.SendMessageInput)
  (sink : Sink World jsstring) (w : World)
  : Promise (Result (list SDKMessage) JsValue) * World :=
  (reply sc, fold_left (fun w' chunk => sink chunk w') (emits sc) w).

Definition context (sc : Script) : Context World jsstring :=
  {| sessionRepository_findById := findById sc;
     sessionRepository_upsert := upsert sc;
     claudeService_sendMessageStream := sendMessageStream sc |}.

(** An agent that answers with the given messages, over a working store. *)
Definition answering (msgs : list SDKMessage) : Script :=
  {| lookup_override := None;
     upsert_override := fun _ => None;
     emits := [js "Hello"];
     reply := Fulfilled (ok msgs) |}.

(** The same, but the [k]-th upsert (from 0) settles to [answer]. *)
Definition with_upsert (k : nat) (answer : Promise (Result Session.t JsValue))
  (sc : Script) : Script :=
  {| lookup_override := lookup_override sc;
     upsert_override :=
       fun n => if Nat.eqb n k then Some answer else upsert_override sc n;
     emits := emits sc;
     reply := reply sc |}.

(** The same, but the lookup settles to [answer]. *)
Definition with_lookup (answer : Promise (Result (option Session.t) JsValue))
  (sc : Script) : Script :=
  {| lookup_override := Some answer;
     upsert_override := upsert_override sc;
     emits := emits sc;
     reply := reply sc |}.

Definition object (fields : list (string * JsValue)) : JsValue :=
  JsObject (map (fun '(k, v) => (js k, v)) fields).

Definition str (s : string) : JsValue := JsString (js s).

Definition db_error : JsValue := str "database unavailable".

(** [{message:"hi", cwd:"/tmp/x"}] *)
Definition new_session_input : JsValue :=
  object [("message", str "hi"); ("cwd", str "/tmp/x")].

(** [{message:"go", sessionId:"s1"}] *)
Definition existing_session_input : JsValue :=
  object [("message", str "go"); ("sessionId", str "s1")].

(** [{id:"s1", cwd:"/work"}] *)
Definition s1 : Session.t :=
  {| Session.id := js "s1"; Session.projectId := None;
     Session.name := None; Session.cwd := js "/work" |}.

(** One result message with [session_id:"abc"]. *)
Definition result_abc : SDKMessage := ResultMessage (js "abc") (object []).

Definition assistant_text : SDKMessage :=
  OtherMessage (object [("type", str "assistant")]).

(** [{message:"hi"}]: neither [sessionId] nor [cwd]. *)
Definition bare_input : JsValue := object [("message", str "hi")].



(** [{isWaitingForPermission:true, pendingRequest:null}] *)
Definition waiting_without_request : JsValue :=
  object [("isWaitingForPermission", JsBoolean true); ("pendingRequest", JsNull)].

(** The fault of [sessionIdSchema.parse(undefined)]. *)
Definition not_a_string : Thrown := ThrownZodError (issue invalid_type).

(** The validated forms of the two inputs. *)
Definition new_session_params : SendMessageStreamInput :=
  {| message := js "hi"; sessionId := None; cwd := Some (js "/tmp/x");
     allowedTools := None; bypassPermissions := None |}.

Definition existing_session_params : SendMessageStreamInput :=
  {| message := js "go"; sessionId := Some (js "s1"); cwd := None;
     allowedTools := None; bypassPermissions := None |}.

(** [{id:"abc", cwd:"/tmp/x"}] *)
Definition abc : Session.t :=
  {| Session.id := js "abc"; Session.projectId := None;
     Session.name := None; Session.cwd := js "/tmp/x" |}.

(** The agent answers with one result message; the first upsert fails. *)
Definition first_upsert_fails : Script :=
  with_upsert 0 (Fulfilled (err db_error)) (answering [result_abc]).

(** The agent answers with one result message; the second upsert fails. *)
Definition second_upsert_fails : Script :=
  with_upsert 1 (Fulfilled (err db_error)) (answering [result_abc]).

(** The agent answers with one result message; the first upsert throws. *)
Definition first_upsert_throws : Script :=
  with_upsert 0 (Rejected not_a_string) (answering [result_abc]).

(** The agent call is rejected. *)
Definition agent_rejects : Script :=
  {| lookup_override := None;
     upsert_override := fun _ => None;
     emits := [];
     reply := Rejected (ThrownValue (str "socket hang up")) |}.

(** A request to run a shell command. *)
Definition bash_request : PermissionRequest :=
  {| toolName := js "Bash";
     toolCommand := js "ls -la";
     originalToolUse :=
       {| tu_id := js "toolu_01"; tu_name := js "Bash";
          tu_input := [(js "command", str "ls -la")] |} |}.

End Stub.

(* ===================================================================== *)
(** ** Vocabulary of the specification *)
(* ===================================================================== *)

(** The ToolGrant pattern [Name(arguments)]: a name that starts with a
    letter or an underscore and goes on with word characters, then an
    argument body between parentheses that is not empty and holds no line
    terminator. *)
Definition ToolGrant (s : jsstring) : Prop :=
  exists c name body,
    s = c :: name ++ js "(" ++ body ++ js ")"
    /\ name_start c = true
    /\ forallb name_char name = true
    /\ body <> []
    /\ forallb Regex.dot body = true.

(** The session identifier of the first result message among the
    returned messages, if there is one. *)
Fixpoint first_result_session_id (msgs : list SDKMessage) : option jsstring :=
  match msgs with
  | [] => None
  | ResultMessage session_id _ :: _ => Some session_id
  | OtherMessage _ :: rest => first_result_session_id rest
  end.


(** The runtime values of the typed states and requests. *)
Definition PermissionRequest_to_js (r : PermissionRequest) : JsValue :=
  JsObject
    [ (js "toolName", JsString (toolName r));
      (js "toolCommand", JsString (toolCommand r));
      (js "originalToolUse",
        JsObject
          [ (js "id", JsString (tu_id (originalToolUse r)));
            (js "name", JsString (tu_name (originalToolUse r)));
            (js "input", JsObject (tu_input (originalToolUse r))) ]) ].

(** A request as the schema returns it: the entries of its [input] but for
    an own key [__proto__]. *)
Definition PermissionRequest_parsed (r : PermissionRequest) : PermissionRequest :=
  {| toolName := toolName r;
     toolCommand := toolCommand r;
     originalToolUse :=
       {| tu_id := tu_id (originalToolUse r);
          tu_name := tu_name (originalToolUse r);
          tu_input := without_proto (tu_input (originalToolUse r)) |} |}.

Definition AuthorizationState_parsed (a : AuthorizationState)
  : AuthorizationState :=
  {| isWaitingForPermission := isWaitingForPermission a;
     pendingRequest := option_map PermissionRequest_parsed (pendingRequest a) |}.

Definition AuthorizationState_to_js (a : AuthorizationState) : JsValue :=
  JsObject
    [ (js "isWaitingForPermission", JsBoolean (isWaitingForPermission a));
      (js "pendingRequest",
        match pendingRequest a with
        | Some r => PermissionRequest_to_js r
        | None => JsNull
        end) ].

(** The events of a trace that reach a collaborator. *)
Definition is_call (ev : Event) : bool :=
  match ev with
  | FindById _ | Upsert _ | ClaudeSendMessageStream _ => true
  | ConsoleError _ _ => false
  end.

Definition calls (tr : list Event) : list Event := filter is_call tr.

Definition is_log (ev : Event) : bool := negb (is_call ev).

Definition logs (tr : list Event) : list Event := filter is_log tr.

Definition is_agent_call (ev : Event) : bool :=
  match ev with ClaudeSendMessageStream _ => true | _ => false end.

Definition is_upsert (ev : Event) : bool :=
  match ev with Upsert _ => true | _ => false end.

(** The error the boundary makes of a caught exception. *)
Definition unexpected_error (t : Thrown) : ApplicationError :=
  {| error_message := "Unexpected error in sendMessageStream";
     error_cause := Some (CauseThrown t) |}.

(** What a collaborator call is: a store read, the agent call, a store
    write. *)
Inductive CallKind : Type := Lookup | Agent | Write.

Definition call_kind (ev : Event) : option CallKind :=
  match ev with
  | FindById _ => Some Lookup
  | ClaudeSendMessageStream _ => Some Agent
  | Upsert _ => Some Write
  | ConsoleError _ _ => None
  end.

(** The collaborator calls of a trace, by kind and in order. *)
Fixpoint call_kinds (tr : list Event) : list CallKind :=
  match tr with
  | [] => []
  | ev :: rest =>
      match call_kind ev with
      | Some k => k :: call_kinds rest
      | None => call_kinds rest
      end
  end.


(* ===================================================================== *)
(** ** The use case: [listProjects] *)
(* ===================================================================== *)

(** The page a listing returns: [{ items: Project[]; count: number }]. *)
Module Projects.
Record Page (Project : Type) : Type := {
  items : list Project;
  count : N
}.
End Projects.

(** What [listProjects] does to the outside, in order. *)
Inductive ProjectEvent (Query : Type) : Type :=
| ProjectRepositoryList (query : Query)
| ProjectConsoleError (label : string) (e : ApplicationError).
Arguments ProjectRepositoryList {Query} query.
Arguments ProjectConsoleError {Query} label e.


Section ListProjects.

(** The world of the project repository, and the two types of
    [@/core/domain/project/types] that the use case only passes on. *)
Variables (W ListProjectQuery Project : Type).

(** [listProjectQuerySchema] of [@/core/domain/project/types] is not among
    the sources: the use case is modelled for any schema. *)
Variable listProjectQuerySchema : ZodType ListProjectQuery.

(** The part of [Context] that the use case calls,
    [context.projectRepository.list]. *)
Record ProjectContext : Type := {
  projectRepository_list :
    ListProjectQuery -> W
    -> Promise (Result (Projects.Page Project) JsValue) * W
}.

Record ProjectState : Type := {
  project_world : W;
  project_trace : list (ProjectEvent ListProjectQuery)
}.

Definition project_log (label : string) (e : ApplicationError)
  (st : ProjectState) : ProjectState :=
  {| project_world := project_world st;
     project_trace := project_trace st ++ [ProjectConsoleError label e] |}.

(** [result.mapErr(f)] for a callback [f] that acts on the state. *)
Definition mapErr {T E F} (f : E -> ProjectState -> F * ProjectState)
  (result : Result T E) (st : ProjectState) : Result T F * ProjectState :=
  match result with
  | ok v => (ok v, st)
  | err e => let (e', st') := f e st in (err e', st')
  end.

(** Lines 13-34. The function has no [try]: a rejected repository call
    rejects the promise of the use case. *)
Definition listProjects (context : ProjectContext) (query : JsValue)
  (st : ProjectState)
  : Promise (Result (Projects.Page Project) ApplicationError) * ProjectState :=
  let parseResult := validate listProjectQuerySchema query in
  match parseResult with
  | err e =>
      let error := {| error_message := "Invalid project query";
                      error_cause := Some (CauseValidation e) |} in
      (Fulfilled (err error),
       project_log "[listProjects] Query validation failed" error st)
  | ok value =>
      let (p, w) := projectRepository_list context value (project_world st) in
      let st' := {| project_world := w;
                    project_trace :=
                      project_trace st ++ [ProjectRepositoryList value] |} in
      match p with
      | Rejected t => (Rejected t, st')
      | Fulfilled result =>
          let (r, st'') :=
            mapErr (fun error st0 =>
                      let appError :=
                        {| error_message := "Failed to list projects";
                           error_cause := Some (CauseError error) |} in
                      (appError,
                       project_log "[listProjects] Repository operation failed"
                         appError st0))
                   result st' in
          (Fulfilled r, st'')
      end
  end.

End ListProjects.

(** A project repository for concrete runs: the world is the list of the
    stored project names; a query is a page size. *)
Module StubProjects.

(** [z.object({ limit: z.string().min(1) })], standing for the query
    schema. *)
Definition querySchema : ZodType jsstring :=
  z_object (fun o => z_field o "limit" (z_min 1 z_string)).

Definition page (names : list jsstring) : Projects.Page jsstring :=
  {| Projects.items := names; Projects.count := N.of_nat (length names) |}.

Definition listing : ProjectContext (list jsstring) jsstring jsstring :=
  {| projectRepository_list :=
       fun _ w => (Fulfilled (ok (page w)), w) |}.

Definition failing : ProjectContext (list jsstring) jsstring jsstring :=
  {| projectRepository_list :=
       fun _ w => (Fulfilled (err Stub.db_error), w) |}.

Definition throwing : ProjectContext (list jsstring) jsstring jsstring :=
  {| projectRepository_list :=
       fun _ w => (Rejected (ThrownValue Stub.db_error), w) |}.

Definition start (names : list jsstring)
  : ProjectState (list jsstring) jsstring :=
  {| project_world := names; project_trace := [] |}.

(** [{limit:"10"}] and [{}] *)
Definition ten : JsValue := Stub.object [("limit", Stub.str "10")].
Definition no_limit : JsValue := Stub.object [].

End StubProjects.

(** More stubs and inputs for concrete runs of [sendMessageStream]. *)
Module Scenario.

(** The agent call returns an error. *)
Definition agent_fails : Stub.Script :=
  {| Stub.lookup_override := None;
     Stub.upsert_override := fun _ => None;
     Stub.emits := [];
     Stub.reply := Fulfilled (err (Stub.str "overloaded")) |}.

(** The error that a call over [agent_fails] returns. *)
Definition overloaded : ApplicationError :=
  {| error_message := "Failed to send message to Claude";
     error_cause := Some (CauseError (Stub.str "overloaded")) |}.

(** [{message:"go", sessionId:"s1", cwd:"/elsewhere"}] *)
Definition moved_input : JsValue :=
  Stub.object [("message", Stub.str "go"); ("sessionId", Stub.str "s1");
               ("cwd", Stub.str "/elsewhere")].

Definition moved_params : SendMessageStreamInput :=
  {| message := js "go"; sessionId := Some (js "s1");
     cwd := Some (js "/elsewhere");
     allowedTools := None; bypassPermissions := None |}.

(** The world after the agent has emitted its chunk. *)
Definition after_agent (l : list Session.t) : Stub.World :=
  {| Stub.sessions := l; Stub.upserts := 0; Stub.delivered := [js "Hello"] |}.

Definition after_write (l : list Session.t) : Stub.World :=
  {| Stub.sessions := l; Stub.upserts := 1; Stub.delivered := [js "Hello"] |}.

End Scenario.

(* ===================================================================== *)
(** ** Strings *)
(* ===================================================================== *)

Lemma js_eqb_refl (s : jsstring) : js_eqb s s = true.
Proof.
  induction s as [|a s IH]; simpl; [reflexivity|].
  now rewrite N.eqb_refl, IH.
Qed.

Lemma js_eqb_eq (s t : jsstring) : js_eqb s t = true <-> s = t.
Proof.
  split; [|intros ->; apply js_eqb_refl].
  revert t; induction s as [|a s IH]; intros [|b t]; simpl; try discriminate; auto.
  intros H. apply andb_true_iff in H as [Hab Hst].
  apply N.eqb_eq in Hab. apply IH in Hst. now subst.
Qed.

Lemma truthy_string_nonempty (s : jsstring) : truthy_string s = true <-> s <> [].
Proof. destruct s; simpl; split; congruence. Qed.

(* ===================================================================== *)
(** ** The matcher decides the language *)
(* ===================================================================== *)

Module RegexFacts.
Import Regex.

Lemma matches_class p s : matches (Class p) s <-> exists c, s = [c] /\ p c = true.
Proof.
  split.
  - intros H; inversion H; subst. eauto.
  - intros (c & -> & Hc). now constructor.
Qed.

Lemma matches_cat r1 r2 s :
  matches (Cat r1 r2) s <->
  exists s1 s2, s = s1 ++ s2 /\ matches r1 s1 /\ matches r2 s2.
Proof.
  split.
  - intros H; inversion H; subst. eauto.
  - intros (s1 & s2 & -> & H1 & H2). now constructor.
Qed.

Lemma matches_alt r1 r2 s :
  matches (Alt r1 r2) s <-> matches r1 s \/ matches r2 s.
Proof.
  split.
  - intros H; inversion H; subst; auto.
  - intros [H|H]; [now apply m_alt_l|now apply m_alt_r].
Qed.

Lemma matches_void s : ~ matches Void s.
Proof. intros H; inversion H. Qed.

Lemma matches_eps s : matches Eps s <-> s = [].
Proof.
  split.
  - intros H; now inversion H.
  - intros ->. constructor.
Qed.

Lemma nullable_matches r : nullable r = true <-> matches r [].
Proof.
  induction r as [| |p|r1 IH1 r2 IH2|r1 IH1 r2 IH2|r IH]; simpl.
  - split; [discriminate|]. intros H; now apply matches_void in H.
  - split; [constructor|reflexivity].
  - split; [discriminate|].
    intros H; apply matches_class in H as (c & E & _); discriminate.
  - rewrite andb_true_iff, IH1, IH2, matches_cat. split.
    + intros [H1 H2]. now exists [], [].
    + intros (s1 & s2 & E & H1 & H2). symmetry in E.
      apply app_eq_nil in E as [-> ->]. now split.
  - now rewrite orb_true_iff, IH1, IH2, matches_alt.
  - split; [constructor|reflexivity].
Qed.

(** A match of [Star r] against a non-empty string starts with a
    non-empty match of [r]. *)
Lemma star_cons_inv r0 s0 :
  matches r0 s0 ->
  forall r c s', r0 = Star r -> s0 = c :: s' ->
  exists s1 s2, s' = s1 ++ s2 /\ matches r (c :: s1) /\ matches (Star r) s2.
Proof.
  induction 1 as [| | | | | |r1 s1 s2 H1 _ H2 IH2]; intros r' c' t E Hs;
    try discriminate.
  injection E as ->.
  destruct s1 as [|a s1]; simpl in Hs.
  - now apply IH2.
  - injection Hs as -> <-. now exists s1, s2.
Qed.

Lemma cat_cons_inv r1 r2 c s :
  matches (Cat r1 r2) (c :: s) ->
  (exists s1 s2, s = s1 ++ s2 /\ matches r1 (c :: s1) /\ matches r2 s2)
  \/ (matches r1 [] /\ matches r2 (c :: s)).
Proof.
  intros H. apply matches_cat in H as (s1 & s2 & E & H1 & H2).
  destruct s1 as [|a s1]; simpl in E.
  - right. subst. now split.
  - injection E as -> ->. left. now exists s1, s2.
Qed.

Lemma cons_cat r1 r2 c s1 s2 :
  matches r1 (c :: s1) -> matches r2 s2 -> matches (Cat r1 r2) (c :: s1 ++ s2).
Proof.
  intros H1 H2. change (c :: s1 ++ s2) with ((c :: s1) ++ s2). now constructor.
Qed.

Lemma deriv_matches r : forall c s, matches (deriv c r) s <-> matches r (c :: s).
Proof.
  induction r as [| |p|r1 IH1 r2 IH2|r1 IH1 r2 IH2|r IH]; intros c s; simpl.
  - split; intros H; now apply matches_void in H.
  - split; intros H; [now apply matches_void in H|].
    apply matches_eps in H; discriminate.
  - rewrite matches_class. destruct (p c) eqn:Hp.
    + rewrite matches_eps. split.
      * intros ->. now exists c.
      * intros (c' & E & _). now injection E.
    + split; intros H; [now apply matches_void in H|].
      destruct H as (c' & E & Hc'). injection E as -> ->. congruence.
  - destruct (nullable r1) eqn:Hn.
    + rewrite matches_alt, matches_cat. split.
      * intros [(s1 & s2 & -> & H1 & H2)|H].
        -- apply cons_cat; [now apply IH1|assumption].
        -- apply nullable_matches in Hn.
           change (c :: s) with ([] ++ c :: s). constructor; [assumption|].
           now apply IH2.
      * intros H. apply cat_cons_inv in H as [(s1 & s2 & -> & H1 & H2)|[H1 H2]].
        -- left. exists s1, s2. split; [reflexivity|].
           split; [now apply IH1|assumption].
        -- right. now apply IH2.
    + rewrite matches_cat. split.
      * intros (s1 & s2 & -> & H1 & H2).
        apply cons_cat; [now apply IH1|assumption].
      * intros H. apply cat_cons_inv in H as [(s1 & s2 & -> & H1 & H2)|[H1 H2]].
        -- exists s1, s2. split; [reflexivity|].
           split; [now apply IH1|assumption].
        -- apply nullable_matches in H1. congruence.
  - now rewrite !matches_alt, IH1, IH2.
  - rewrite matches_cat. split.
    + intros (s1 & s2 & -> & H1 & H2).
      change (c :: s1 ++ s2) with ((c :: s1) ++ s2).
      constructor; [now apply IH|assumption].
    + intros H.
      destruct (star_cons_inv H eq_refl eq_refl) as (s1 & s2 & -> & H1 & H2).
      exists s1, s2. split; [reflexivity|].
      split; [now apply IH|assumption].
Qed.

Theorem test_matches r s : test r s = true <-> matches r s.
Proof.
  revert r; induction s as [|c s IH]; intros r; simpl.
  - apply nullable_matches.
  - rewrite IH. apply deriv_matches.
Qed.

Lemma star_class_inv p r0 s :
  matches r0 s -> r0 = Star (Class p) -> forallb p s = true.
Proof.
  induction 1 as [| | | | | |r1 s1 s2 H1 _ H2 IH2]; intros E;
    try discriminate.
  - reflexivity.
  - injection E as ->.
    apply matches_class in H1 as (c & -> & Hc). simpl.
    now rewrite Hc, IH2.
Qed.

Lemma matches_star_class p s :
  matches (Star (Class p)) s <-> forallb p s = true.
Proof.
  split.
  - intros H. now apply (star_class_inv H).
  - induction s as [|c s IH]; simpl; intros H.
    + constructor.
    + apply andb_true_iff in H as [Hc Hs].
      change (c :: s) with ([c] ++ s). constructor; [now constructor|auto].
Qed.

Lemma matches_plus_class p s :
  matches (Plus (Class p)) s <-> s <> [] /\ forallb p s = true.
Proof.
  unfold Plus. rewrite matches_cat. split.
  - intros (s1 & s2 & -> & H1 & H2).
    apply matches_class in H1 as (c & -> & Hc).
    apply matches_star_class in H2. simpl. split; [discriminate|].
    now rewrite Hc, H2.
  - intros [Hne H]. destruct s as [|c s]; [congruence|].
    simpl in H. apply andb_true_iff in H as [Hc Hs].
    exists [c], s. split; [reflexivity|]. split.
    + now constructor.
    + now apply matches_star_class.
Qed.

End RegexFacts.

(** The regular expression of [allowedToolSchema] accepts exactly the
    ToolGrant pattern. *)
Lemma allowedTool_regex_ToolGrant (s : jsstring) :
  Regex.test allowedTool_regex s = true <-> ToolGrant s.
Proof.
  rewrite RegexFacts.test_matches. unfold allowedTool_regex, ToolGrant.
  split.
  - intros H.
    apply RegexFacts.matches_cat in H as (a & r1 & -> & Ha & H).
    apply RegexFacts.matches_class in Ha as (c & -> & Hc).
    apply RegexFacts.matches_cat in H as (name & r2 & -> & Hn & H).
    apply RegexFacts.matches_star_class in Hn.
    apply RegexFacts.matches_cat in H as (lp & r3 & -> & Hl & H).
    apply RegexFacts.matches_class in Hl as (l & -> & Hl).
    apply RegexFacts.matches_cat in H as (body & rp & -> & Hb & Hr).
    apply RegexFacts.matches_plus_class in Hb as [Hne Hb].
    apply RegexFacts.matches_class in Hr as (r & -> & Hr).
    unfold Regex.is_char in Hl, Hr. simpl in Hl, Hr.
    apply N.eqb_eq in Hl, Hr. subst l r.
    exists c, name, body. simpl. auto.
  - intros (c & name & body & -> & Hc & Hn & Hne & Hb).
    change (c :: name ++ js "(" ++ body ++ js ")")
      with ([c] ++ name ++ js "(" ++ body ++ js ")").
    constructor; [now constructor|].
    constructor; [now apply RegexFacts.matches_star_class|].
    constructor; [now constructor|].
    constructor; [now apply RegexFacts.matches_plus_class|].
    now constructor.
Qed.

(* ===================================================================== *)
(** ** What the schemas accept *)
(* ===================================================================== *)

Lemma z_and_ok {A B} (ra : Result A ZodError) (rb : Result B ZodError) a b :
  z_and ra rb = ok (a, b) <-> ra = ok a /\ rb = ok b.
Proof.
  destruct ra, rb; simpl; split; try (intros [? ?]); try intros ?; try congruence.
  split; congruence.
Qed.

Lemma z_map_ok {A B} (f : A -> B) (r : Result A ZodError) y :
  z_map f r = ok y <-> exists x, r = ok x /\ f x = y.
Proof.
  destruct r; simpl; split.
  - intros H; injection H as <-. eauto.
  - intros (x & E & <-). congruence.
  - discriminate.
  - intros (x & E & _). discriminate.
Qed.

Lemma z_field_ok {A} input k (t : ZodType A) a :
  z_field input k t = ok a <-> t (js_get input k) = ok a.
Proof. unfold z_field. destruct (t (js_get input k)); split; congruence. Qed.

Lemma z_object_ok {A} (shape : JsValue -> Result A ZodError) v a :
  z_object shape v = ok a <-> (exists fields, v = JsObject fields) /\ shape v = ok a.
Proof.
  destruct v; simpl; split; try discriminate;
    try (intros [(f & E) _]; discriminate).
  - intros H. split; [eauto|assumption].
  - now intros [_ H].
Qed.

Lemma z_refine_ok {A} (check : A -> bool) msg pth (t : ZodType A) v a :
  z_refine check msg pth t v = ok a <-> t v = ok a /\ check a = true.
Proof.
  unfold z_refine. destruct (t v) as [x|e]; [|split; [discriminate|now intros [? _]]].
  destruct (check x) eqn:Hc; split.
  - intros H; injection H as <-. now split.
  - intros [H _]. exact H.
  - discriminate.
  - intros [H Hc']. injection H as <-. congruence.
Qed.

Lemma z_string_ok v s : z_string v = ok s <-> v = JsString s.
Proof. destruct v; simpl; split; congruence. Qed.

Lemma z_boolean_ok v b : z_boolean v = ok b <-> v = JsBoolean b.
Proof. destruct v; simpl; split; congruence. Qed.

Lemma z_literal_ok l v s : z_literal l v = ok s <-> v = JsString s /\ s = js l.
Proof.
  destruct v; simpl; split; try discriminate; try (intros [? _]; discriminate).
  - destruct (js_eqb s0 (js l)) eqn:E; [|discriminate].
    apply js_eqb_eq in E. intros H; injection H as <-. now split.
  - intros [H ->]. injection H as ->. now rewrite js_eqb_refl.
Qed.

(** [z.string().min(1)]: the non-empty strings. *)
Lemma z_min1_ok v s :
  z_min 1 z_string v = ok s <-> v = JsString s /\ truthy_string s = true.
Proof.
  unfold z_min. destruct v; simpl; split; try discriminate;
    try (intros [? _]; discriminate).
  - destruct s0; simpl; [discriminate|]. intros H; injection H as <-. now split.
  - intros [H Ht]. injection H as ->. now destruct s.
Qed.

Lemma z_optional_ok {A} (t : ZodType A) v o :
  z_optional t v = ok o <->
  match o with
  | None => v = JsUndefined
  | Some a => v <> JsUndefined /\ t v = ok a
  end.
Proof.
  unfold z_optional.
  destruct v; destruct o as [a|]; simpl; split; try discriminate; try tauto;
    try (intros [Hn _]; congruence);
    try (destruct (t _) eqn:E; intros H; try discriminate;
         injection H as <-; split; [discriminate|reflexivity]);
    try (intros [_ ->]; reflexivity);
    try (destruct (t _); discriminate).
Qed.

Lemma z_nullable_ok {A} (t : ZodType A) v o :
  z_nullable t v = ok o <->
  match o with
  | None => v = JsNull
  | Some a => v <> JsNull /\ t v = ok a
  end.
Proof.
  unfold z_nullable.
  destruct v; destruct o as [a|]; simpl; split; try discriminate; try tauto;
    try (intros [Hn _]; congruence);
    try (destruct (t _) eqn:E; intros H; try discriminate;
         injection H as <-; split; [discriminate|reflexivity]);
    try (intros [_ ->]; reflexivity);
    try (destruct (t _); discriminate).
Qed.

(** An array parses when each of its items does. *)
Lemma parse_items_ok {A} (t : ZodType A) items : forall i l,
  parse_items t i items = ok l <-> Forall2 (fun v a => t v = ok a) items l.
Proof.
  induction items as [|v items IH]; intros i l; simpl.
  - split.
    + intros H; injection H as <-. constructor.
    + intros H; now inversion H.
  - destruct (t v) as [a|e] eqn:Ev.
    + destruct (parse_items t (S i) items) as [l'|e'] eqn:Ep; simpl.
      * split.
        -- intros H; injection H as <-. constructor; [assumption|].
           now apply (IH (S i)).
        -- intros H; inversion H as [|? b ? l2 Hb Hl]; subst.
           apply (IH (S i)) in Hl. congruence.
      * split; [discriminate|].
        intros H; inversion H as [|? b ? l2 Hb Hl]; subst.
        apply (IH (S i)) in Hl. congruence.
    + destruct (parse_items t (S i) items); simpl;
        (split; [discriminate|]); intros H; inversion H; congruence.
Qed.

Lemma Forall2_strings items (l : list jsstring) :
  Forall2 (fun v a => z_string v = ok a) items l <-> items = map JsString l.
Proof.
  split.
  - induction 1 as [|v a items l Hv _ IH]; simpl; [reflexivity|].
    apply z_string_ok in Hv. now subst.
  - intros ->. induction l; simpl; constructor; auto.
Qed.

(** [z.array(z.string())]: the arrays of strings, whatever the strings. *)
Lemma z_array_string_ok v l : z_array z_string v = ok l <-> v = JsArray (map JsString l).
Proof.
  destruct v; simpl; split; try discriminate.
  - intros H. apply parse_items_ok, Forall2_strings in H. now subst.
  - intros H; injection H as ->. now apply parse_items_ok, Forall2_strings.
Qed.

Lemma allowedToolSchema_ok v s :
  allowedToolSchema v = ok s <-> v = JsString s /\ ToolGrant s.
Proof.
  unfold allowedToolSchema, z_regex. rewrite <- allowedTool_regex_ToolGrant.
  destruct v; simpl; split; try discriminate; try (intros [? _]; discriminate).
  - destruct (Regex.test allowedTool_regex s0) eqn:E; [|discriminate].
    intros H; injection H as <-. now split.
  - intros [H Ht]. injection H as ->. now rewrite Ht.
Qed.

(** [z.array(allowedToolSchema)]: the arrays of tool grants. *)
Lemma z_array_allowedTool_ok v l :
  z_array allowedToolSchema v = ok l <->
  v = JsArray (map JsString l) /\ Forall ToolGrant l.
Proof.
  destruct v; simpl; split; try discriminate; try (intros [? _]; discriminate).
  - intros H. apply parse_items_ok in H.
    induction H as [|v a items l Hv _ [IH1 IH2]]; simpl; [now split|].
    apply allowedToolSchema_ok in Hv as [-> Hg].
    injection IH1 as ->. split; [reflexivity|now constructor].
  - intros [H Hall]. injection H as ->. apply parse_items_ok.
    induction Hall as [|a l Ha _ IH]; simpl; constructor; [|assumption].
    now apply allowedToolSchema_ok.
Qed.

Lemma validate_ok {A} (schema : ZodType A) data a :
  validate schema data = ok a <-> schema data = ok a.
Proof. unfold validate. destruct (schema data); split; congruence. Qed.

(** What a validated input looks like, property by property. *)
Lemma sendMessageStreamInputSchema_ok input params :
  sendMessageStreamInputSchema input = ok params <->
  (exists fields, input = JsObject fields)
  /\ z_min 1 z_string (js_get input "message") = ok (message params)
  /\ z_optional (z_min 1 z_string) (js_get input "sessionId") = ok (sessionId params)
  /\ z_optional (z_min 1 z_string) (js_get input "cwd") = ok (cwd params)
  /\ z_optional (z_array z_string) (js_get input "allowedTools")
     = ok (allowedTools params)
  /\ z_optional z_boolean (js_get input "bypassPermissions")
     = ok (bypassPermissions params)
  /\ cwd_given_for_new_session params = true.
Proof.
  unfold sendMessageStreamInputSchema.
  rewrite z_refine_ok, z_object_ok, z_map_ok. split.
  - intros [[Hobj (x & Hx & <-)] Hc].
    destruct x as (m & s & c & a & b).
    repeat (apply z_and_ok in Hx; destruct Hx as [?H Hx]).
    repeat match goal with
           | F : z_field _ _ _ = _ |- _ => apply z_field_ok in F
           end.
    simpl. tauto.
  - intros (Hobj & Hm & Hs & Hcw & Ha & Hb & Hc).
    split; [|assumption]. split; [assumption|].
    exists (message params, (sessionId params, (cwd params,
             (allowedTools params, bypassPermissions params)))).
    split; [|now destruct params].
    repeat (apply z_and_ok; split); now apply z_field_ok.
Qed.

(** After validation, a [sessionId] or [cwd] that is present is truthy, and
    one of the two is present. *)
Lemma validated_sessionId input params sid :
  validate sendMessageStreamInputSchema input = ok params ->
  sessionId params = Some sid ->
  truthy_string sid = true /\ js_get input "sessionId" = JsString sid.
Proof.
  intros H E. apply validate_ok, sendMessageStreamInputSchema_ok in H.
  destruct H as (_ & _ & Hs & _). rewrite E in Hs.
  apply z_optional_ok in Hs as [_ Hs]. apply z_min1_ok in Hs. tauto.
Qed.

Lemma validated_cwd input params c :
  validate sendMessageStreamInputSchema input = ok params ->
  cwd params = Some c ->
  truthy_string c = true /\ js_get input "cwd" = JsString c.
Proof.
  intros H E. apply validate_ok, sendMessageStreamInputSchema_ok in H.
  destruct H as (_ & _ & _ & Hc & _). rewrite E in Hc.
  apply z_optional_ok in Hc as [_ Hc]. apply z_min1_ok in Hc. tauto.
Qed.

Lemma validated_no_sessionId input params :
  validate sendMessageStreamInputSchema input = ok params ->
  sessionId params = None ->
  js_get input "sessionId" = JsUndefined /\ exists c, cwd params = Some c.
Proof.
  intros H E. pose proof H as H'.
  apply validate_ok, sendMessageStreamInputSchema_ok in H.
  destruct H as (_ & _ & Hs & _ & _ & _ & Hr). rewrite E in Hs.
  apply z_optional_ok in Hs. split; [assumption|].
  unfold cwd_given_for_new_session in Hr. rewrite E in Hr. simpl in Hr.
  destruct (cwd params) as [c|]; [eauto|discriminate].
Qed.


(** An input without [sessionId] and without [cwd] is refused. *)
Lemma missing_sessionId_and_cwd_refused input :
  js_get input "sessionId" = JsUndefined ->
  js_get input "cwd" = JsUndefined ->
  isErr (validate sendMessageStreamInputSchema input) = true.
Proof.
  intros Hs Hc.
  destruct (validate sendMessageStreamInputSchema input) as [params|e] eqn:E;
    [|reflexivity].
  apply validate_ok, sendMessageStreamInputSchema_ok in E.
  destruct E as (_ & _ & Es & Ec & _ & _ & Hr).
  rewrite Hs in Es. rewrite Hc in Ec. simpl in Es, Ec.
  injection Es as Es. injection Ec as Ec.
  unfold cwd_given_for_new_session in Hr. rewrite <- Es, <- Ec in Hr.
  discriminate.
Qed.

Lemma sessionIdSchema_truthy (s : jsstring) :
  truthy_string s = true -> sessionIdSchema (JsString s) = ok s.
Proof. intros H. apply z_min1_ok. now split. Qed.

(** The id read off the messages is that of the first result message. *)
Lemma extractSessionId_first_result msgs :
  extractSessionId msgs =
  match first_result_session_id msgs with
  | Some sid => JsString sid
  | None => JsUndefined
  end.
Proof.
  unfold extractSessionId.
  induction msgs as [|[sid rest|content] msgs IH]; simpl; auto.
Qed.

Lemma no_result_message_no_id msgs :
  existsb isResultMessage msgs = false -> first_result_session_id msgs = None.
Proof.
  induction msgs as [|[sid rest|content] msgs IH]; simpl; auto; discriminate.
Qed.

Lemma session_eta (s : Session.t) :
  {| Session.id := Session.id s; Session.projectId := Session.projectId s;
     Session.name := Session.name s; Session.cwd := Session.cwd s |} = s.
Proof. now destruct s. Qed.

(* ===================================================================== *)
(** ** Properties of the domain schemas *)
(* ===================================================================== *)

(** C10. The keyword schema accepts a value exactly when it is one of the
    three strings "requested permissions", "haven't granted it yet" and
    "permission denied"; every other string, and every value that is not a
    string, is rejected. *)
Theorem permissionErrorKeywords_exactly_three (v : JsValue) :
  isOk (permissionErrorKeywordsSchema v) = true <->
  v = JsString (js "requested permissions")
  \/ v = JsString (js "haven't granted it yet")
  \/ v = JsString (js "permission denied").
Proof.
  unfold permissionErrorKeywordsSchema. simpl. split.
  - destruct (z_literal "requested permissions" v) as [s|] eqn:E1.
    { apply z_literal_ok in E1 as [-> ->]. auto. }
    destruct (z_literal "haven't granted it yet" v) as [s|] eqn:E2.
    { apply z_literal_ok in E2 as [-> ->]. auto. }
    destruct (z_literal "permission denied" v) as [s|] eqn:E3.
    { apply z_literal_ok in E3 as [-> ->]. auto. }
    discriminate.
  - intros [-> | [-> | ->]]; reflexivity.
Qed.

(* ===================================================================== *)
(** ** Properties of [sendMessageStream] *)
(* ===================================================================== *)

Ltac unfold_run :=
  unfold run, sendMessageStream, async, sendMessageStream_body, try_catch,
    sendMessageStream_try, resolveSession, createSession, bind, ret, return_,
    throw, await, console_error, z_parse, record in *;
  simpl in *.

Section Properties.

Variables (W ChunkData : Type).
Variable context : Context W ChunkData.
Variable onChunk : Sink W ChunkData.

(** C5. An input without [sessionId] and without [cwd], and more generally
    an input that fails the schema, makes the call fail with the validation
    error ("Invalid input", wrapping the validation report); the world of
    the collaborators is untouched and the only event is the
    [console.error]: no store read, no store write, no agent call. *)
Theorem invalid_input_fails_without_calls (input : JsValue) (w : W) :
  (js_get input "sessionId" = JsUndefined /\ js_get input "cwd" = JsUndefined)
  \/ isErr (validate sendMessageStreamInputSchema input) = true ->
  exists e,
    validate sendMessageStreamInputSchema input = err e
    /\ run context input onChunk w
       = (Fulfilled (err {| error_message := "Invalid input";
                            error_cause := Some (CauseValidation e) |}),
          {| world := w;
             trace := [ConsoleError "[sendMessageStream] Input validation failed"
                         {| error_message := "Invalid input";
                            error_cause := Some (CauseValidation e) |}] |})
    /\ calls (trace (snd (run context input onChunk w))) = [].
Proof.
  intros H.
  assert (Herr : isErr (validate sendMessageStreamInputSchema input) = true).
  { destruct H as [[Hs Hc]|H]; [|assumption].
    now apply missing_sessionId_and_cwd_refused. }
  destruct (validate sendMessageStreamInputSchema input) as [params|e] eqn:E;
    [discriminate|].
  exists e. split; [reflexivity|].
  unfold_run. rewrite E. simpl. split; reflexivity.
Qed.

(** C8. The promise returned by [sendMessageStream] is always fulfilled with
    a [Result], never rejected, whatever the input and whatever the
    collaborators do; a fault thrown while the body runs is caught, logged
    and returned as the error "Unexpected error in sendMessageStream"
    wrapping the fault; and this is what happens when a collaborator call
    rejects, at each of the call sites: the lookup, the agent call on either
    path, the creating upsert, the refresh upsert on either path. *)
Theorem sendMessageStream_never_rejects (input : JsValue) (st : State W) :
  (exists r st', sendMessageStream context input onChunk st = (Fulfilled r, st'))
  /\ (forall params t st',
        validate sendMessageStreamInputSchema input = ok params ->
        sendMessageStream_try context params onChunk st = (Throw t, st') ->
        sendMessageStream context input onChunk st
        = (Fulfilled (err (unexpected_error t)),
           record (ConsoleError "[sendMessageStream] Unexpected error occurred"
                     (unexpected_error t)) st'))
  /\ (forall params t,
        validate sendMessageStreamInputSchema input = ok params ->
        (forall sid w1,
           sessionId params = Some sid ->
           sessionRepository_findById context sid (world st) = (Rejected t, w1) ->
           fst (sendMessageStream context input onChunk st)
           = Fulfilled (err (unexpected_error t)))
        /\ (forall w1,
              sessionId params = None ->
              claudeService_sendMessageStream context (claudeParams params None)
                onChunk (world st) = (Rejected t, w1) ->
              fst (sendMessageStream context input onChunk st)
              = Fulfilled (err (unexpected_error t)))
        /\ (forall sid s w1 w2,
              sessionId params = Some sid ->
              sessionRepository_findById context sid (world st)
              = (Fulfilled (ok (Some s)), w1) ->
              claudeService_sendMessageStream context
                (claudeParams params (Some s)) onChunk w1 = (Rejected t, w2) ->
              fst (sendMessageStream context input onChunk st)
              = Fulfilled (err (unexpected_error t)))
        /\ (forall c msgs sid w1 w2,
              sessionId params = None ->
              cwd params = Some c ->
              claudeService_sendMessageStream context (claudeParams params None)
                onChunk (world st) = (Fulfilled (ok msgs), w1) ->
              first_result_session_id msgs = Some sid ->
              truthy_string sid = true ->
              sessionRepository_upsert context
                {| Session.id := sid; Session.projectId := None;
                   Session.name := None; Session.cwd := c |} w1
              = (Rejected t, w2) ->
              fst (sendMessageStream context input onChunk st)
              = Fulfilled (err (unexpected_error t)))
        /\ (forall c msgs sid s w1 w2 w3,
              sessionId params = None ->
              cwd params = Some c ->
              claudeService_sendMessageStream context (claudeParams params None)
                onChunk (world st) = (Fulfilled (ok msgs), w1) ->
              first_result_session_id msgs = Some sid ->
              truthy_string sid = true ->
              sessionRepository_upsert context
                {| Session.id := sid; Session.projectId := None;
                   Session.name := None; Session.cwd := c |} w1
              = (Fulfilled (ok s), w2) ->
              sessionRepository_upsert context s w2 = (Rejected t, w3) ->
              fst (sendMessageStream context input onChunk st)
              = Fulfilled (err (unexpected_error t)))
        /\ (forall sid s msgs w1 w2 w3,
              sessionId params = Some sid ->
              sessionRepository_findById context sid (world st)
              = (Fulfilled (ok (Some s)), w1) ->
              claudeService_sendMessageStream context
                (claudeParams params (Some s)) onChunk w1
              = (Fulfilled (ok msgs), w2) ->
              sessionRepository_upsert context s w2 = (Rejected t, w3) ->
              fst (sendMessageStream context input onChunk st)
              = Fulfilled (err (unexpected_error t)))).
Proof.
  split; [|split].
  - unfold sendMessageStream, async, sendMessageStream_body.
    destruct (validate sendMessageStreamInputSchema input) as [params|e].
    + unfold try_catch.
      destruct (sendMessageStream_try context params onChunk st)
        as [[a|r|t] st'].
      * destruct a.
      * eauto.
      * unfold bind, console_error, return_. eauto.
    + unfold bind, console_error, return_. eauto.
  - intros params t st' Hv Ht.
    unfold sendMessageStream, async, sendMessageStream_body.
    rewrite Hv. unfold try_catch. rewrite Ht. reflexivity.
  - intros params t Hv. repeat split.
    + intros sid w1 Hs Hf.
      destruct (@validated_sessionId input params sid Hv Hs) as [Ht _].
      destruct sid as [|a sid]; [discriminate|].
      unfold_run. rewrite Hv, Hs. simpl. rewrite Hf. reflexivity.
    + intros w1 Hs Ha.
      unfold_run. rewrite Hv, Hs. simpl. rewrite Ha. reflexivity.
    + intros sid s w1 w2 Hs Hf Ha.
      destruct (@validated_sessionId input params sid Hv Hs) as [Ht _].
      destruct sid as [|a sid]; [discriminate|].
      unfold_run. rewrite Hv, Hs. simpl. rewrite Hf. simpl. rewrite Ha.
      reflexivity.
    + intros c msgs sid w1 w2 Hs Hc Ha Hid Ht Hu.
      destruct (@validated_cwd input params c Hv Hc) as [Htc _].
      unfold_run. rewrite Hv, Hs. simpl. rewrite Ha. simpl.
      rewrite Hc, Htc. simpl.
      rewrite extractSessionId_first_result, Hid, (sessionIdSchema_truthy _ Ht).
      simpl. rewrite Hu. reflexivity.
    + intros c msgs sid s w1 w2 w3 Hs Hc Ha Hid Ht Hu1 Hu2.
      destruct (@validated_cwd input params c Hv Hc) as [Htc _].
      unfold_run. rewrite Hv, Hs. simpl. rewrite Ha. simpl.
      rewrite Hc, Htc. simpl.
      rewrite extractSessionId_first_result, Hid, (sessionIdSchema_truthy _ Ht).
      simpl. rewrite Hu1. simpl. rewrite session_eta, Hu2. reflexivity.
    + intros sid s msgs w1 w2 w3 Hs Hf Ha Hu.
      destruct (@validated_sessionId input params sid Hv Hs) as [Ht _].
      destruct sid as [|a sid]; [discriminate|].
      unfold_run. rewrite Hv, Hs. simpl. rewrite Hf. simpl. rewrite Ha. simpl.
      rewrite session_eta, Hu. reflexivity.
Qed.

(** *** Where the agent is called *)





(** C6. When the input names a session and the lookup succeeds but finds
    no record, the call fails with "Session not found"; when the lookup
    itself fails, the call fails with "Failed to get session" wrapping the
    cause. In both cases the lookup and the [console.error] are the only
    events: the agent is not called. *)
Theorem absent_or_failed_lookup_stops_before_agent
  (input : JsValue) (w : W) (params : SendMessageStreamInput) (sid : jsstring) :
  validate sendMessageStreamInputSchema input = ok params ->
  sessionId params = Some sid ->
  (forall w1,
     sessionRepository_findById context sid w = (Fulfilled (ok None), w1) ->
     run context input onChunk w
     = (Fulfilled (err {| error_message := "Session not found";
                          error_cause := None |}),
        {| world := w1;
           trace := [FindById sid;
                     ConsoleError "[sendMessageStream] Session not found"
                       {| error_message := "Session not found";
                          error_cause := None |}] |})
     /\ existsb is_agent_call (trace (snd (run context input onChunk w))) = false)
  /\ (forall e w1,
        sessionRepository_findById context sid w = (Fulfilled (err e), w1) ->
        run context input onChunk w
        = (Fulfilled (err {| error_message := "Failed to get session";
                             error_cause := Some (CauseError e) |}),
           {| world := w1;
              trace := [FindById sid;
                        ConsoleError "[sendMessageStream] Session retrieval failed"
                          {| error_message := "Failed to get session";
                             error_cause := Some (CauseError e) |}] |})
        /\ existsb is_agent_call (trace (snd (run context input onChunk w)))
           = false).
Proof.
  intros Hv Hs. destruct (@validated_sessionId input params sid Hv Hs) as [Ht _].
  destruct sid as [|c sid]; [discriminate|].
  split.
  - intros w1 Hf.
    assert (E : run context input onChunk w
                = (Fulfilled (err {| error_message := "Session not found";
                                     error_cause := None |}),
                   {| world := w1;
                      trace := [FindById (c :: sid);
                                ConsoleError "[sendMessageStream] Session not found"
                                  {| error_message := "Session not found";
                                     error_cause := None |}] |})).
    { unfold_run. rewrite Hv, Hs. simpl. rewrite Hf. reflexivity. }
    split; [exact E|]. rewrite E. reflexivity.
  - intros e w1 Hf.
    assert (E : run context input onChunk w
                = (Fulfilled (err {| error_message := "Failed to get session";
                                     error_cause := Some (CauseError e) |}),
                   {| world := w1;
                      trace := [FindById (c :: sid);
                                ConsoleError
                                  "[sendMessageStream] Session retrieval failed"
                                  {| error_message := "Failed to get session";
                                     error_cause := Some (CauseError e) |}] |})).
    { unfold_run. rewrite Hv, Hs. simpl. rewrite Hf. reflexivity. }
    split; [exact E|]. rewrite E. reflexivity.
Qed.


(** The path of a new conversation whose session gets created, up to the
    answer of the refresh upsert. *)
Lemma new_session_path
  (input : JsValue) (w : W) (params : SendMessageStreamInput) (c : jsstring)
  (msgs : list SDKMessage) (sid : jsstring) (w1 w2 w3 : W) (s1 : Session.t)
  (r2 : Result Session.t JsValue) :
  validate sendMessageStreamInputSchema input = ok params ->
  sessionId params = None ->
  cwd params = Some c ->
  claudeService_sendMessageStream context (claudeParams params None) onChunk w
  = (Fulfilled (ok msgs), w1) ->
  first_result_session_id msgs = Some sid ->
  truthy_string sid = true ->
  sessionRepository_upsert context
    {| Session.id := sid; Session.projectId := None;
       Session.name := None; Session.cwd := c |} w1
  = (Fulfilled (ok s1), w2) ->
  sessionRepository_upsert context s1 w2 = (Fulfilled r2, w3) ->
  run context input onChunk w
  = (Fulfilled (ok {| session := match r2 with ok s2 => s2 | err _ => s1 end;
                      messages := msgs |}),
     {| world := w3;
        trace := [ClaudeSendMessageStream (claudeParams params None);
                  Upsert {| Session.id := sid; Session.projectId := None;
                            Session.name := None; Session.cwd := c |};
                  Upsert s1] |}).
Proof.
  intros Hv Hs Hc Ha Hid Ht Hu1 Hu2.
  destruct (@validated_cwd input params c Hv Hc) as [Htc _].
  unfold_run. rewrite Hv, Hs. simpl. rewrite Ha. simpl. rewrite Hc, Htc. simpl.
  rewrite extractSessionId_first_result, Hid, (sessionIdSchema_truthy _ Ht).
  simpl. rewrite Hu1. simpl. rewrite session_eta, Hu2. reflexivity.
Qed.

(** C1, as the code has it. On a new conversation (validated input, no
    [sessionId], hence a [cwd]) where the agent call succeeds and the first
    result message among the messages carries a non-empty session id, the
    creating upsert is issued with that id, the caller's [cwd] and neither
    project nor name. When it succeeds and the refresh upsert settles, the
    call succeeds: the refresh upsert is issued with the session the store
    returned, and the call returns all the messages with the session of the
    refresh, or that of the creation if the refresh failed; over a store
    whose upserts return the record they are given, the returned session is
    the created one. When the creating upsert fails, with whatever error,
    the call fails with "Failed to create session" wrapping that error, and
    no refresh is issued. *)
Theorem new_session_created_from_first_result
  (input : JsValue) (w : W) (params : SendMessageStreamInput) (c : jsstring)
  (msgs : list SDKMessage) (sid : jsstring) (w1 : W) :
  validate sendMessageStreamInputSchema input = ok params ->
  sessionId params = None ->
  cwd params = Some c ->
  claudeService_sendMessageStream context (claudeParams params None) onChunk w
  = (Fulfilled (ok msgs), w1) ->
  first_result_session_id msgs = Some sid ->
  truthy_string sid = true ->
  (forall (s1 : Session.t) (w2 : W) (r2 : Result Session.t JsValue) (w3 : W),
     sessionRepository_upsert context
       {| Session.id := sid; Session.projectId := None;
          Session.name := None; Session.cwd := c |} w1
     = (Fulfilled (ok s1), w2) ->
     sessionRepository_upsert context s1 w2 = (Fulfilled r2, w3) ->
     run context input onChunk w
     = (Fulfilled (ok {| session := match r2 with ok s2 => s2 | err _ => s1 end;
                         messages := msgs |}),
        {| world := w3;
           trace := [ClaudeSendMessageStream (claudeParams params None);
                     Upsert {| Session.id := sid; Session.projectId := None;
                               Session.name := None; Session.cwd := c |};
                     Upsert s1] |})
     /\ (s1 = {| Session.id := sid; Session.projectId := None;
                 Session.name := None; Session.cwd := c |} ->
         r2 = ok s1 ->
         fst (run context input onChunk w)
         = Fulfilled (ok {| session := {| Session.id := sid;
                                          Session.projectId := None;
                                          Session.name := None;
                                          Session.cwd := c |};
                            messages := msgs |})))
  /\ (forall (e : JsValue) (w2 : W),
        sessionRepository_upsert context
          {| Session.id := sid; Session.projectId := None;
             Session.name := None; Session.cwd := c |} w1
        = (Fulfilled (err e), w2) ->
        run context input onChunk w
        = (Fulfilled (err {| error_message := "Failed to create session";
                             error_cause := Some (CauseError e) |}),
           {| world := w2;
              trace := [ClaudeSendMessageStream (claudeParams params None);
                        Upsert {| Session.id := sid; Session.projectId := None;
                                  Session.name := None; Session.cwd := c |};
                        ConsoleError "[sendMessageStream] Session creation failed"
                          {| error_message := "Failed to create session";
                             error_cause := Some (CauseError e) |}] |})).
Proof.
  intros Hv Hs Hc Ha Hid Ht. split.
  - intros s1 w2 r2 w3 Hu1 Hu2.
    pose proof (@new_session_path input w params c msgs sid w1 w2 w3 s1 r2
                  Hv Hs Hc Ha Hid Ht Hu1 Hu2) as Hrun.
    split; [exact Hrun|].
    intros Hecho Hr2. rewrite Hrun. simpl. rewrite Hr2. now rewrite Hecho.
  - intros e w2 Hu.
    destruct (@validated_cwd input params c Hv Hc) as [Htc _].
    unfold_run. rewrite Hv, Hs. simpl. rewrite Ha. simpl. rewrite Hc, Htc. simpl.
    rewrite extractSessionId_first_result, Hid, (sessionIdSchema_truthy _ Ht).
    simpl. rewrite Hu. reflexivity.
Qed.

(** C2, as the code has it. When everything up to the refresh upsert
    succeeded and the refresh upsert fails, the call still succeeds with all
    the messages and the session held before the refresh; nothing is
    returned as an error, and nothing is logged either: the failed upsert
    is the last event and no [console.error] is among the events. *)
Theorem refresh_failure_is_swallowed
  (input : JsValue) (w : W) (params : SendMessageStreamInput)
  (msgs : list SDKMessage) :
  validate sendMessageStreamInputSchema input = ok params ->
  (forall sid s w1 w2 e w3,
     sessionId params = Some sid ->
     sessionRepository_findById context sid w = (Fulfilled (ok (Some s)), w1) ->
     claudeService_sendMessageStream context (claudeParams params (Some s))
       onChunk w1 = (Fulfilled (ok msgs), w2) ->
     sessionRepository_upsert context s w2 = (Fulfilled (err e), w3) ->
     run context input onChunk w
     = (Fulfilled (ok {| session := s; messages := msgs |}),
        {| world := w3;
           trace := [FindById sid;
                     ClaudeSendMessageStream (claudeParams params (Some s));
                     Upsert s] |})
     /\ logs (trace (snd (run context input onChunk w))) = [])
  /\ (forall c sid s w1 w2 e w3,
        sessionId params = None ->
        cwd params = Some c ->
        claudeService_sendMessageStream context (claudeParams params None)
          onChunk w = (Fulfilled (ok msgs), w1) ->
        first_result_session_id msgs = Some sid ->
        truthy_string sid = true ->
        sessionRepository_upsert context
          {| Session.id := sid; Session.projectId := None;
             Session.name := None; Session.cwd := c |} w1
        = (Fulfilled (ok s), w2) ->
        sessionRepository_upsert context s w2 = (Fulfilled (err e), w3) ->
        run context input onChunk w
        = (Fulfilled (ok {| session := s; messages := msgs |}),
           {| world := w3;
              trace := [ClaudeSendMessageStream (claudeParams params None);
                        Upsert {| Session.id := sid; Session.projectId := None;
                                  Session.name := None; Session.cwd := c |};
                        Upsert s] |})
        /\ logs (trace (snd (run context input onChunk w))) = []).
Proof.
  intros Hv. split.
  - intros sid s w1 w2 e w3 Hs Hf Ha Hu.
    destruct (@validated_sessionId input params sid Hv Hs) as [Ht _].
    destruct sid as [|a sid]; [discriminate|].
    assert (E : run context input onChunk w
                = (Fulfilled (ok {| session := s; messages := msgs |}),
                   {| world := w3;
                      trace := [FindById (a :: sid);
                                ClaudeSendMessageStream
                                  (claudeParams params (Some s));
                                Upsert s] |})).
    { unfold_run. rewrite Hv, Hs. simpl. rewrite Hf. simpl. rewrite Ha. simpl.
      rewrite session_eta, Hu. reflexivity. }
    split; [exact E|]. rewrite E. reflexivity.
  - intros c sid s w1 w2 e w3 Hs Hc Ha Hid Ht Hu1 Hu2.
    pose proof (@new_session_path input w params c msgs sid w1 w2 w3 s (err e)
                  Hv Hs Hc Ha Hid Ht Hu1 Hu2) as E.
    split; [exact E|]. rewrite E. reflexivity.
Qed.

(** C4, as the code has it. On a new conversation where the agent call
    succeeds but no returned message is a result message, the id read off
    the messages is [undefined], [sessionIdSchema.parse] throws, and the
    call fails with the error of the boundary, "Unexpected error in
    sendMessageStream", wrapping that fault. The agent call and the
    [console.error] are the only events: no upsert is issued, so no session
    record is created. *)
Theorem missing_session_id_is_unexpected_error
  (input : JsValue) (w : W) (params : SendMessageStreamInput)
  (msgs : list SDKMessage) (w1 : W) :
  validate sendMessageStreamInputSchema input = ok params ->
  sessionId params = None ->
  claudeService_sendMessageStream context (claudeParams params None) onChunk w
  = (Fulfilled (ok msgs), w1) ->
  existsb isResultMessage msgs = false ->
  run context input onChunk w
  = (Fulfilled (err (unexpected_error (ThrownZodError (issue invalid_type)))),
     {| world := w1;
        trace := [ClaudeSendMessageStream (claudeParams params None);
                  ConsoleError "[sendMessageStream] Unexpected error occurred"
                    (unexpected_error (ThrownZodError (issue invalid_type)))] |})
  /\ existsb is_upsert (trace (snd (run context input onChunk w))) = false.
Proof.
  intros Hv Hs Ha Hn.
  destruct (@validated_no_sessionId input params Hv Hs) as [_ [c Hc]].
  destruct (@validated_cwd input params c Hv Hc) as [Htc _].
  assert (E : run context input onChunk w
              = (Fulfilled
                   (err (unexpected_error (ThrownZodError (issue invalid_type)))),
                 {| world := w1;
                    trace := [ClaudeSendMessageStream (claudeParams params None);
                              ConsoleError
                                "[sendMessageStream] Unexpected error occurred"
                                (unexpected_error
                                   (ThrownZodError (issue invalid_type)))] |})).
  { unfold_run. rewrite Hv, Hs. simpl. rewrite Ha. simpl. rewrite Hc, Htc. simpl.
    rewrite extractSessionId_first_result, (no_result_message_no_id _ Hn).
    reflexivity. }
  split; [exact E|]. rewrite E. reflexivity.
Qed.

End Properties.

(* ===================================================================== *)
(** ** Tool grants and authorization states *)
(* ===================================================================== *)

Lemma continueMessageSchema_ok v m :
  continueMessageSchema v = ok m <->
  (exists fields, v = JsObject fields)
  /\ z_literal "continue" (js_get v "message") = ok (cm_message m)
  /\ z_array allowedToolSchema (js_get v "allowedTools") = ok (cm_allowedTools m).
Proof.
  unfold continueMessageSchema. rewrite z_object_ok, z_map_ok. split.
  - intros [Hobj ([msg tools] & Hx & <-)].
    apply z_and_ok in Hx as [Hm Ht]. apply z_field_ok in Hm, Ht. simpl. tauto.
  - intros (Hobj & Hm & Ht). split; [assumption|].
    exists (cm_message m, cm_allowedTools m). split; [|now destruct m].
    apply z_and_ok. split; now apply z_field_ok.
Qed.



Lemma parse_entries_any fields :
  parse_entries z_string z_any fields = ok (without_proto fields).
Proof.
  induction fields as [|[k v] fields IH]; simpl; [reflexivity|].
  destruct (is_proto k); simpl; [exact IH|].
  now rewrite IH.
Qed.

Lemma without_proto_none {V} (entries : list (jsstring * V)) :
  existsb (fun kv => is_proto (fst kv)) entries = false ->
  without_proto entries = entries.
Proof.
  induction entries as [|[k v] entries IH]; simpl; [reflexivity|].
  destruct (is_proto k); simpl; [discriminate|].
  intros H. now rewrite IH.
Qed.

Lemma without_proto_idempotent {V} (entries : list (jsstring * V)) :
  without_proto (without_proto entries) = without_proto entries.
Proof.
  induction entries as [|[k v] entries IH]; simpl; [reflexivity|].
  destruct (is_proto k) eqn:E; simpl; [exact IH|].
  now rewrite E, IH.
Qed.

Lemma permissionRequestSchema_to_js (r : PermissionRequest) :
  permissionRequestSchema (PermissionRequest_to_js r)
  = ok (PermissionRequest_parsed r).
Proof.
  destruct r as [n c [i nm inp]].
  unfold permissionRequestSchema, PermissionRequest_to_js, z_object, z_field,
    js_get, toolTypeSchema. simpl.
  now rewrite parse_entries_any.
Qed.


(** C9, as the code has it. The schema of the authorization state checks
    its two properties independently: every pair of a boolean and of a
    permission request or [null], written as a runtime value, is accepted,
    with the boolean as it is and a request exactly when there was one; in
    particular the pair that waits without a request and the pair that
    holds a request without waiting. What comes back is the state itself,
    but for an own key [__proto__] among the entries of the request's
    [input], which the record schema skips. A state holds one request at
    most. *)
Theorem authorizationState_fields_independent (a : AuthorizationState) :
  authorizationStateSchema (AuthorizationState_to_js a)
  = ok (AuthorizationState_parsed a)
  /\ isWaitingForPermission (AuthorizationState_parsed a)
     = isWaitingForPermission a
  /\ (pendingRequest (AuthorizationState_parsed a) = None
      <-> pendingRequest a = None)
  /\ ((forall r,
         pendingRequest a = Some r ->
         existsb (fun kv => is_proto (fst kv)) (tu_input (originalToolUse r))
         = false) ->
      authorizationStateSchema (AuthorizationState_to_js a) = ok a)
  /\ (forall r1 r2,
        pendingRequest a = Some r1 -> pendingRequest a = Some r2 -> r1 = r2).
Proof.
  assert (E : authorizationStateSchema (AuthorizationState_to_js a)
              = ok (AuthorizationState_parsed a)).
  { destruct a as [b [r|]]; [|reflexivity].
    unfold authorizationStateSchema, AuthorizationState_to_js, z_object,
      z_field, js_get. simpl lookup_field. simpl pendingRequest.
    unfold z_nullable. rewrite permissionRequestSchema_to_js.
    destruct r; reflexivity. }
  split; [exact E|]. split; [reflexivity|]. split; [|split].
  - destruct a as [b [r|]]; simpl; split; congruence.
  - intros Hno. rewrite E. f_equal.
    destruct a as [b [r|]]; [|reflexivity].
    unfold AuthorizationState_parsed, PermissionRequest_parsed. simpl.
    rewrite (without_proto_none _ (Hno r eq_refl)).
    destruct r as [n c [i nm inp]]. reflexivity.
  - intros r1 r2 H1 H2. congruence.
Qed.

(* ===================================================================== *)
(** ** Concrete runs *)
(* ===================================================================== *)

(** The example of the specification: [{message:"hi", cwd:"/tmp/x"}], one
    result message with [session_id:"abc"], a working store. *)
Lemma new_session_created_example :
  run (Stub.context (Stub.answering [Stub.result_abc])) Stub.new_session_input
    Stub.onChunk Stub.empty
  = (Fulfilled (ok {| session := Stub.abc; messages := [Stub.result_abc] |}),
     {| world := {| Stub.sessions := [Stub.abc]; Stub.upserts := 2;
                    Stub.delivered := [js "Hello"] |};
        trace := [ClaudeSendMessageStream
                    (claudeParams Stub.new_session_params None);
                  Upsert Stub.abc; Upsert Stub.abc] |})
  /\ run (Stub.context Stub.first_upsert_fails) Stub.new_session_input
       Stub.onChunk Stub.empty
     = (Fulfilled (err {| error_message := "Failed to create session";
                          error_cause := Some (CauseError Stub.db_error) |}),
        {| world := {| Stub.sessions := []; Stub.upserts := 1;
                       Stub.delivered := [js "Hello"] |};
           trace := [ClaudeSendMessageStream
                       (claudeParams Stub.new_session_params None);
                     Upsert Stub.abc;
                     ConsoleError "[sendMessageStream] Session creation failed"
                       {| error_message := "Failed to create session";
                          error_cause := Some (CauseError Stub.db_error) |}] |}).
Proof.
  split.
  - exact (proj1 (proj1 (@new_session_created_from_first_result Stub.World
             jsstring (Stub.context (Stub.answering [Stub.result_abc]))
             Stub.onChunk Stub.new_session_input Stub.empty
             Stub.new_session_params (js "/tmp/x") [Stub.result_abc] (js "abc")
             {| Stub.sessions := []; Stub.upserts := 0;
                Stub.delivered := [js "Hello"] |}
             eq_refl eq_refl eq_refl eq_refl eq_refl eq_refl)
           Stub.abc
           {| Stub.sessions := [Stub.abc]; Stub.upserts := 1;
              Stub.delivered := [js "Hello"] |}
           (ok Stub.abc)
           {| Stub.sessions := [Stub.abc]; Stub.upserts := 2;
              Stub.delivered := [js "Hello"] |}
           eq_refl eq_refl)).
  - exact (proj2 (@new_session_created_from_first_result Stub.World
             jsstring (Stub.context Stub.first_upsert_fails)
             Stub.onChunk Stub.new_session_input Stub.empty
             Stub.new_session_params (js "/tmp/x") [Stub.result_abc] (js "abc")
             {| Stub.sessions := []; Stub.upserts := 0;
                Stub.delivered := [js "Hello"] |}
             eq_refl eq_refl eq_refl eq_refl eq_refl eq_refl)
           Stub.db_error
           {| Stub.sessions := []; Stub.upserts := 1;
              Stub.delivered := [js "Hello"] |}
           eq_refl).
Defined.

(** The same call over a store whose creating upsert fails: the agent call
    succeeded and returned a result message, and the call fails. *)
Lemma new_session_fails_when_creation_fails :
  fst (claudeService_sendMessageStream (Stub.context Stub.first_upsert_fails)
         (claudeParams Stub.new_session_params None) Stub.onChunk Stub.empty)
  = Fulfilled (ok [Stub.result_abc])
  /\ first_result_session_id [Stub.result_abc] = Some (js "abc")
  /\ run (Stub.context Stub.first_upsert_fails) Stub.new_session_input
       Stub.onChunk Stub.empty
     = (Fulfilled (err {| error_message := "Failed to create session";
                          error_cause := Some (CauseError Stub.db_error) |}),
        {| world := {| Stub.sessions := []; Stub.upserts := 1;
                       Stub.delivered := [js "Hello"] |};
           trace := [ClaudeSendMessageStream
                       (claudeParams Stub.new_session_params None);
                     Upsert Stub.abc;
                     ConsoleError "[sendMessageStream] Session creation failed"
                       {| error_message := "Failed to create session";
                          error_cause := Some (CauseError Stub.db_error) |}] |}).
Proof. repeat split. Qed.

(** A failed refresh on both paths: the existing session [s1], and a new
    session whose second upsert fails. *)
Lemma refresh_failure_swallowed_example :
  run (Stub.context Stub.first_upsert_fails) Stub.existing_session_input
    Stub.onChunk (Stub.holding [Stub.s1])
  = (Fulfilled (ok {| session := Stub.s1; messages := [Stub.result_abc] |}),
     {| world := {| Stub.sessions := [Stub.s1]; Stub.upserts := 1;
                    Stub.delivered := [js "Hello"] |};
        trace := [FindById (js "s1");
                  ClaudeSendMessageStream
                    (claudeParams Stub.existing_session_params (Some Stub.s1));
                  Upsert Stub.s1] |})
  /\ run (Stub.context Stub.second_upsert_fails) Stub.new_session_input
       Stub.onChunk Stub.empty
     = (Fulfilled (ok {| session := Stub.abc; messages := [Stub.result_abc] |}),
        {| world := {| Stub.sessions := [Stub.abc]; Stub.upserts := 2;
                       Stub.delivered := [js "Hello"] |};
           trace := [ClaudeSendMessageStream
                       (claudeParams Stub.new_session_params None);
                     Upsert Stub.abc; Upsert Stub.abc] |}).
Proof.
  split.
  - exact (proj1 (proj1 (@refresh_failure_is_swallowed Stub.World jsstring
             (Stub.context Stub.first_upsert_fails) Stub.onChunk
             Stub.existing_session_input (Stub.holding [Stub.s1])
             Stub.existing_session_params [Stub.result_abc] eq_refl)
           (js "s1") Stub.s1 (Stub.holding [Stub.s1])
           {| Stub.sessions := [Stub.s1]; Stub.upserts := 0;
              Stub.delivered := [js "Hello"] |}
           Stub.db_error
           {| Stub.sessions := [Stub.s1]; Stub.upserts := 1;
              Stub.delivered := [js "Hello"] |}
           eq_refl eq_refl eq_refl eq_refl)).
  - exact (proj1 (proj2 (@refresh_failure_is_swallowed Stub.World jsstring
             (Stub.context Stub.second_upsert_fails) Stub.onChunk
             Stub.new_session_input Stub.empty
             Stub.new_session_params [Stub.result_abc] eq_refl)
           (js "/tmp/x") (js "abc") Stub.abc
           {| Stub.sessions := []; Stub.upserts := 0;
              Stub.delivered := [js "Hello"] |}
           {| Stub.sessions := [Stub.abc]; Stub.upserts := 1;
              Stub.delivered := [js "Hello"] |}
           Stub.db_error
           {| Stub.sessions := [Stub.abc]; Stub.upserts := 2;
              Stub.delivered := [js "Hello"] |}
           eq_refl eq_refl eq_refl eq_refl eq_refl eq_refl eq_refl)).
Defined.

(** The refresh upsert of an existing session fails, the call succeeds, and
    no [console.error] is among the events. *)
Lemma refresh_failure_is_not_logged :
  fst (sessionRepository_upsert (Stub.context Stub.first_upsert_fails) Stub.s1
         {| Stub.sessions := [Stub.s1]; Stub.upserts := 0;
            Stub.delivered := [js "Hello"] |})
  = Fulfilled (err Stub.db_error)
  /\ fst (run (Stub.context Stub.first_upsert_fails) Stub.existing_session_input
            Stub.onChunk (Stub.holding [Stub.s1]))
     = Fulfilled (ok {| session := Stub.s1; messages := [Stub.result_abc] |})
  /\ trace (snd (run (Stub.context Stub.first_upsert_fails)
                   Stub.existing_session_input Stub.onChunk
                   (Stub.holding [Stub.s1])))
     = [FindById (js "s1");
        ClaudeSendMessageStream
          (claudeParams Stub.existing_session_params (Some Stub.s1));
        Upsert Stub.s1]
  /\ logs (trace (snd (run (Stub.context Stub.first_upsert_fails)
                         Stub.existing_session_input Stub.onChunk
                         (Stub.holding [Stub.s1]))))
     = [].
Proof. repeat split. Qed.



(** The agent answers without a result message. *)
Lemma missing_session_id_example :
  run (Stub.context (Stub.answering [Stub.assistant_text])) Stub.new_session_input
    Stub.onChunk Stub.empty
  = (Fulfilled (err (unexpected_error Stub.not_a_string)),
     {| world := {| Stub.sessions := []; Stub.upserts := 0;
                    Stub.delivered := [js "Hello"] |};
        trace := [ClaudeSendMessageStream
                    (claudeParams Stub.new_session_params None);
                  ConsoleError "[sendMessageStream] Unexpected error occurred"
                    (unexpected_error Stub.not_a_string)] |})
  /\ existsb is_upsert
       (trace (snd (run (Stub.context (Stub.answering [Stub.assistant_text]))
                      Stub.new_session_input Stub.onChunk Stub.empty)))
     = false.
Proof.
  exact (@missing_session_id_is_unexpected_error Stub.World jsstring
           (Stub.context (Stub.answering [Stub.assistant_text])) Stub.onChunk
           Stub.new_session_input Stub.empty Stub.new_session_params
           [Stub.assistant_text]
           {| Stub.sessions := []; Stub.upserts := 0;
              Stub.delivered := [js "Hello"] |}
           eq_refl eq_refl eq_refl eq_refl).
Defined.

(** The error of a call whose agent returned no session id is the error of
    a call whose agent returned one and whose store threw: the same value,
    under the same message. *)
Lemma missing_session_id_error_not_dedicated :
  fst (run (Stub.context (Stub.answering [Stub.assistant_text]))
         Stub.new_session_input Stub.onChunk Stub.empty)
  = Fulfilled (err {| error_message := "Unexpected error in sendMessageStream";
                      error_cause := Some (CauseThrown Stub.not_a_string) |})
  /\ first_result_session_id [Stub.result_abc] = Some (js "abc")
  /\ fst (run (Stub.context Stub.first_upsert_throws)
            Stub.new_session_input Stub.onChunk Stub.empty)
     = fst (run (Stub.context (Stub.answering [Stub.assistant_text]))
              Stub.new_session_input Stub.onChunk Stub.empty).
Proof. repeat split. Qed.

(** [{message:"hi"}] has neither [sessionId] nor [cwd]. *)
Lemma bare_input_rejected :
  exists e,
    validate sendMessageStreamInputSchema Stub.bare_input = err e
    /\ run (Stub.context (Stub.answering [Stub.result_abc])) Stub.bare_input
         Stub.onChunk Stub.empty
       = (Fulfilled (err {| error_message := "Invalid input";
                            error_cause := Some (CauseValidation e) |}),
          {| world := Stub.empty;
             trace := [ConsoleError "[sendMessageStream] Input validation failed"
                         {| error_message := "Invalid input";
                            error_cause := Some (CauseValidation e) |}] |})
    /\ calls (trace (snd (run (Stub.context (Stub.answering [Stub.result_abc]))
                            Stub.bare_input Stub.onChunk Stub.empty)))
       = [].
Proof.
  apply invalid_input_fails_without_calls. left. split; reflexivity.
Defined.

(** The session "s1" over an empty store, and over a store whose lookup
    fails. *)
Lemma unknown_session_example :
  run (Stub.context (Stub.answering [Stub.result_abc]))
    Stub.existing_session_input Stub.onChunk Stub.empty
  = (Fulfilled (err {| error_message := "Session not found";
                       error_cause := None |}),
     {| world := Stub.empty;
        trace := [FindById (js "s1");
                  ConsoleError "[sendMessageStream] Session not found"
                    {| error_message := "Session not found";
                       error_cause := None |}] |})
  /\ run (Stub.context (Stub.with_lookup (Fulfilled (err Stub.db_error))
                          (Stub.answering [Stub.result_abc])))
       Stub.existing_session_input Stub.onChunk Stub.empty
     = (Fulfilled (err {| error_message := "Failed to get session";
                          error_cause := Some (CauseError Stub.db_error) |}),
        {| world := Stub.empty;
           trace := [FindById (js "s1");
                     ConsoleError "[sendMessageStream] Session retrieval failed"
                       {| error_message := "Failed to get session";
                          error_cause := Some (CauseError Stub.db_error) |}] |}).
Proof.
  split.
  - exact (proj1 (proj1 (@absent_or_failed_lookup_stops_before_agent
             Stub.World jsstring
             (Stub.context (Stub.answering [Stub.result_abc])) Stub.onChunk
             Stub.existing_session_input Stub.empty
             Stub.existing_session_params (js "s1") eq_refl eq_refl)
           Stub.empty eq_refl)).
  - exact (proj1 (proj2 (@absent_or_failed_lookup_stops_before_agent
             Stub.World jsstring
             (Stub.context (Stub.with_lookup (Fulfilled (err Stub.db_error))
                              (Stub.answering [Stub.result_abc])))
             Stub.onChunk Stub.existing_session_input Stub.empty
             Stub.existing_session_params (js "s1") eq_refl eq_refl)
           Stub.db_error Stub.empty eq_refl)).
Defined.


(** An agent whose call rejects: the promise of the use case is fulfilled
    with the error of the boundary. *)
Lemma rejecting_agent_example :
  fst (run (Stub.context Stub.agent_rejects) Stub.new_session_input
         Stub.onChunk Stub.empty)
  = Fulfilled (err (unexpected_error (ThrownValue (Stub.str "socket hang up")))).
Proof.
  exact (proj1 (proj2 (proj2 (proj2 (@sendMessageStream_never_rejects
           Stub.World jsstring (Stub.context Stub.agent_rejects) Stub.onChunk
           Stub.new_session_input {| world := Stub.empty; trace := [] |}))
           Stub.new_session_params (ThrownValue (Stub.str "socket hang up"))
           eq_refl))
         Stub.empty eq_refl eq_refl).
Defined.

(** The schema accepts a state that waits without a request, and a state
    that holds a request without waiting. *)
Lemma waiting_without_request_accepted :
  authorizationStateSchema Stub.waiting_without_request
  = ok {| isWaitingForPermission := true; pendingRequest := None |}
  /\ authorizationStateSchema
       (AuthorizationState_to_js
          {| isWaitingForPermission := false;
             pendingRequest := Some Stub.bash_request |})
     = ok {| isWaitingForPermission := false;
             pendingRequest := Some Stub.bash_request |}.
Proof. split; reflexivity. Qed.

(** "permission denied" is a keyword; "denied" is not. *)
Lemma permission_denied_is_a_keyword :
  isOk (permissionErrorKeywordsSchema (Stub.str "permission denied")) = true
  /\ isOk (permissionErrorKeywordsSchema (Stub.str "denied")) = false.
Proof.
  split.
  - apply permissionErrorKeywords_exactly_three. right. right. reflexivity.
  - reflexivity.
Defined.

(* ===================================================================== *)
(** ** More on [sendMessageStream]: every path at once *)
(* ===================================================================== *)

Section AllPaths.

Variables (W ChunkData : Type).
Variable context : Context W ChunkData.
Variable onChunk : Sink W ChunkData.

(** The answer of the next collaborator call, parse or test that the
    goal depends on. *)
Ltac next_answer :=
  match goal with
  | |- context [claudeService_sendMessageStream ?c ?p ?k ?w] =>
      destruct (claudeService_sendMessageStream c p k w)
        as [[[?msgs|?e]|?t] ?w] eqn:?Ha
  | |- context [sessionRepository_upsert ?c ?r ?w] =>
      destruct (sessionRepository_upsert c r w) as [[[?s|?e]|?t] ?w] eqn:?Hu
  | |- context [sessionIdSchema ?v] => destruct (sessionIdSchema v) eqn:?Hid
  end; simpl.

(** The case analysis that follows a call from its input to its last
    event: validation, then the conversation (existing or new), then the
    answer of each collaborator. What validation guarantees is used, so the
    cases left are the ones a call can take. *)
Ltac all_paths input w :=
  let params := fresh "params" in
  let Hv := fresh "Hv" in
  let Hs := fresh "Hs" in
  destruct (validate sendMessageStreamInputSchema input) as [params|?e] eqn:Hv;
  [ destruct (sessionId params) as [sid|] eqn:Hs;
    [ let Ht := fresh "Ht" in
      destruct (@validated_sessionId input params sid Hv Hs) as [Ht _];
      destruct sid as [|?a sid]; [discriminate Ht|];
      unfold_run; rewrite ?Hv, ?Hs; simpl;
      destruct (sessionRepository_findById context (_ :: sid) w)
        as [[[[?s|]|?e]|?t] ?w] eqn:?Hf; simpl;
      repeat next_answer
    | let c := fresh "c" in
      let Hc := fresh "Hc" in
      let Htc := fresh "Htc" in
      destruct (@validated_no_sessionId input params Hv Hs) as [_ [c Hc]];
      destruct (@validated_cwd input params c Hv Hc) as [Htc _];
      unfold_run; rewrite ?Hv, ?Hs; simpl;
      destruct (claudeService_sendMessageStream context
                  (claudeParams params None) onChunk w)
        as [[[?msgs|?e]|?t] ?w] eqn:?Ha; simpl;
      rewrite ?Hc, ?Htc; simpl;
      repeat next_answer ]
  | unfold_run; rewrite ?Hv; simpl ].


(** X2. A call that fails has written the error it returns to the console,
    once, and nothing else; a call that succeeds has written nothing to the
    console; and no call rejects. *)
Theorem returned_error_is_logged_once (input : JsValue) (w : W) :
  match fst (run context input onChunk w) with
  | Fulfilled (err e) =>
      exists label,
        logs (trace (snd (run context input onChunk w))) = [ConsoleError label e]
  | Fulfilled (ok _) => logs (trace (snd (run context input onChunk w))) = []
  | Rejected _ => False
  end.
Proof.
  all_paths input w; simpl; eauto.
Qed.

(** X3. The errors a call can return are six, each with the cause of its
    kind: the validation report, the error value of the collaborator, or
    the caught fault; "Session not found" has none. The two other errors of
    the source are never returned. "cwd is required when creating a new
    session" is not, because a validated input without a [sessionId] has a
    non-empty [cwd]. "Session was not created or found" is not, because the
    session is bound whenever the statements before it complete normally:
    by the record that the lookup found, or by the session that the
    creating upsert returned (the store's [ok] carries a session, never
    [null]). *)
Theorem returned_errors_are_six (input : JsValue) (w : W) :
  (forall e,
     fst (run context input onChunk w) = Fulfilled (err e) ->
     (error_message e = "Invalid input"
      /\ exists v, error_cause e = Some (CauseValidation v))
     \/ (error_message e = "Failed to get session"
         /\ exists c, error_cause e = Some (CauseError c))
     \/ (error_message e = "Session not found" /\ error_cause e = None)
     \/ (error_message e = "Failed to send message to Claude"
         /\ exists c, error_cause e = Some (CauseError c))
     \/ (error_message e = "Failed to create session"
         /\ exists c, error_cause e = Some (CauseError c))
     \/ (error_message e = "Unexpected error in sendMessageStream"
         /\ exists t, error_cause e = Some (CauseThrown t)))
  /\ (forall params,
        validate sendMessageStreamInputSchema input = ok params ->
        truthy (sessionId params) = false ->
        truthy (cwd params) = true)
  /\ (forall params st0 resolved st1 msgs st2 bound st3,
        validate sendMessageStreamInputSchema input = ok params ->
        resolveSession context params st0 = (Next resolved, st1) ->
        createSession context params msgs resolved st2 = (Next bound, st3) ->
        bound <> None).
Proof.
  split; [|split].
  - intros e. all_paths input w; simpl; intros H; inversion H; subst; simpl;
      eauto 12.
  - intros params Hv Hs.
    destruct (sessionId params) as [sid|] eqn:Es.
    + destruct (@validated_sessionId input params sid Hv Es) as [Ht _].
      simpl in Hs. congruence.
    + destruct (@validated_no_sessionId input params Hv Es) as [_ [c Hc]].
      destruct (@validated_cwd input params c Hv Hc) as [Htc _].
      rewrite Hc. exact Htc.
  - intros params st0 resolved st1 msgs st2 bound st3 Hv Hr Hc.
    destruct (sessionId params) as [sid|] eqn:Es.
    + destruct (@validated_sessionId input params sid Hv Es) as [Ht _].
      destruct sid as [|a sid]; [discriminate|].
      assert (Hres : resolved <> None).
      { unfold resolveSession in Hr. rewrite Es in Hr.
        unfold bind, ret, return_, z_parse, await, console_error in Hr.
        simpl in Hr.
        destruct (sessionRepository_findById context (a :: sid) (world st0))
          as [[[[s|]|e]|t] w1]; simpl in Hr; inversion Hr; discriminate. }
      unfold createSession in Hc. rewrite Es in Hc. simpl in Hc.
      unfold ret in Hc. injection Hc as <- _. exact Hres.
    + destruct (@validated_no_sessionId input params Hv Es) as [_ [c Hc']].
      destruct (@validated_cwd input params c Hv Hc') as [Htc _].
      unfold createSession in Hc. rewrite Es, Hc' in Hc. simpl in Hc.
      rewrite Htc in Hc. simpl in Hc.
      unfold bind, ret, return_, throw, z_parse, await, console_error in Hc.
      destruct (sessionIdSchema (extractSessionId msgs)) as [id|ze];
        simpl in Hc; [|discriminate].
      destruct (sessionRepository_upsert context _ (world st2))
        as [[[s|e]|t] w2]; simpl in Hc; inversion Hc; discriminate.
Qed.

(** X4. A call that succeeds has called the agent and returns the messages of
    that call as they are; its last event is a store write, and the session
    it returns is the one that write returned, or the one written if the
    write failed. *)
Theorem success_returns_agent_messages_after_a_write
  (input : JsValue) (w : W) (out : Output) :
  fst (run context input onChunk w) = Fulfilled (ok out) ->
  exists p s,
    In (ClaudeSendMessageStream p) (trace (snd (run context input onChunk w)))
    /\ (exists w0 w1,
          claudeService_sendMessageStream context p onChunk w0
          = (Fulfilled (ok (messages out)), w1))
    /\ hd_error (rev (trace (snd (run context input onChunk w))))
       = Some (Upsert s)
    /\ ((exists e w0 w1,
           sessionRepository_upsert context s w0 = (Fulfilled (err e), w1)
           /\ session out = s)
        \/ exists w0 w1,
             sessionRepository_upsert context s w0
             = (Fulfilled (ok (session out)), w1)).
Proof.
  all_paths input w; simpl; intros H; inversion H; subst; simpl;
    rewrite ?session_eta in *;
    do 2 eexists; (split; [simpl; eauto|]); (split; [eauto|]);
    (split; [reflexivity|]); eauto 8.
Qed.

(** X5. When the agent call returns an error, on a new or on an existing
    conversation, the call fails with "Failed to send message to Claude"
    wrapping that error, and the agent call is the last collaborator call:
    nothing is written to the store. *)
Theorem agent_error_is_returned_and_nothing_written
  (input : JsValue) (w : W) (params : SendMessageStreamInput) (e : JsValue) :
  validate sendMessageStreamInputSchema input = ok params ->
  (forall w1,
     sessionId params = None ->
     claudeService_sendMessageStream context (claudeParams params None)
       onChunk w = (Fulfilled (err e), w1) ->
     run context input onChunk w
     = (Fulfilled (err {| error_message := "Failed to send message to Claude";
                          error_cause := Some (CauseError e) |}),
        {| world := w1;
           trace := [ClaudeSendMessageStream (claudeParams params None);
                     ConsoleError
                       "[sendMessageStream] Claude API streaming call failed"
                       {| error_message := "Failed to send message to Claude";
                          error_cause := Some (CauseError e) |}] |}))
  /\ (forall sid s w1 w2,
        sessionId params = Some sid ->
        sessionRepository_findById context sid w
        = (Fulfilled (ok (Some s)), w1) ->
        claudeService_sendMessageStream context (claudeParams params (Some s))
          onChunk w1 = (Fulfilled (err e), w2) ->
        run context input onChunk w
        = (Fulfilled (err {| error_message := "Failed to send message to Claude";
                             error_cause := Some (CauseError e) |}),
           {| world := w2;
              trace := [FindById sid;
                        ClaudeSendMessageStream (claudeParams params (Some s));
                        ConsoleError
                          "[sendMessageStream] Claude API streaming call failed"
                          {| error_message := "Failed to send message to Claude";
                             error_cause := Some (CauseError e) |}] |})).
Proof.
  intros Hv. split.
  - intros w1 Hs Ha. unfold_run. rewrite Hv, Hs. simpl. rewrite Ha. reflexivity.
  - intros sid s w1 w2 Hs Hf Ha.
    destruct (@validated_sessionId input params sid Hv Hs) as [Ht _].
    destruct sid as [|a sid]; [discriminate|].
    unfold_run. rewrite Hv, Hs. simpl. rewrite Hf. simpl. rewrite Ha.
    reflexivity.
Qed.

(** X6. An existing conversation that goes through: the session found is
    written back as it was found, whatever [cwd] the input supplies (that
    [cwd] reaches the agent and not the store), and the call returns the
    session that this write returned, with the messages of the agent. One
    read, one agent call, one write, nothing logged. *)
Theorem existing_session_is_written_back_unchanged
  (input : JsValue) (w : W) (params : SendMessageStreamInput)
  (sid : jsstring) (s s' : Session.t) (msgs : list SDKMessage) (w1 w2 w3 : W) :
  validate sendMessageStreamInputSchema input = ok params ->
  sessionId params = Some sid ->
  sessionRepository_findById context sid w = (Fulfilled (ok (Some s)), w1) ->
  claudeService_sendMessageStream context (claudeParams params (Some s))
    onChunk w1 = (Fulfilled (ok msgs), w2) ->
  sessionRepository_upsert context s w2 = (Fulfilled (ok s'), w3) ->
  run context input onChunk w
  = (Fulfilled (ok {| session := s'; messages := msgs |}),
     {| world := w3;
        trace := [FindById sid;
                  ClaudeSendMessageStream (claudeParams params (Some s));
                  Upsert s] |}).
Proof.
  intros Hv Hs Hf Ha Hu.
  destruct (@validated_sessionId input params sid Hv Hs) as [Ht _].
  destruct sid as [|a sid]; [discriminate|].
  unfold_run. rewrite Hv, Hs. simpl. rewrite Hf. simpl. rewrite Ha. simpl.
  rewrite session_eta, Hu. reflexivity.
Qed.


End AllPaths.

(* ===================================================================== *)
(** ** More on the input schema *)
(* ===================================================================== *)



Lemma z_optional_min1_accepts v :
  (exists o, z_optional (z_min 1 z_string) v = ok o) <->
  v = JsUndefined \/ exists s, v = JsString s /\ s <> [].
Proof.
  split.
  - intros [[s|] H]; apply z_optional_ok in H.
    + destruct H as [_ H]. apply z_min1_ok in H as [-> Ht].
      right. exists s. split; [reflexivity|]. now apply truthy_string_nonempty.
    + now left.
  - intros [->|(s & -> & Hs)].
    + now exists None.
    + exists (Some s). apply z_optional_ok. split; [discriminate|].
      apply z_min1_ok. split; [reflexivity|]. now apply truthy_string_nonempty.
Qed.

(** X8. The inputs that validation accepts, read off the runtime value: an
    object whose [message] is a non-empty string, whose [sessionId] and
    [cwd] are each absent or a non-empty string and not both absent, whose
    [allowedTools] is absent or an array of strings, and whose
    [bypassPermissions] is absent or a boolean. *)
Theorem input_is_accepted_iff (input : JsValue) :
  isOk (validate sendMessageStreamInputSchema input) = true <->
  (exists fields, input = JsObject fields)
  /\ (exists m, js_get input "message" = JsString m /\ m <> [])
  /\ (js_get input "sessionId" = JsUndefined
      \/ exists s, js_get input "sessionId" = JsString s /\ s <> [])
  /\ (js_get input "cwd" = JsUndefined
      \/ exists c, js_get input "cwd" = JsString c /\ c <> [])
  /\ (js_get input "allowedTools" = JsUndefined
      \/ exists l, js_get input "allowedTools" = JsArray (map JsString l))
  /\ (js_get input "bypassPermissions" = JsUndefined
      \/ exists b, js_get input "bypassPermissions" = JsBoolean b)
  /\ (js_get input "sessionId" = JsUndefined ->
      js_get input "cwd" <> JsUndefined).
Proof.
  split.
  - destruct (validate sendMessageStreamInputSchema input) as [params|e] eqn:Hv;
      [intros _|discriminate].
    pose proof Hv as H.
    apply validate_ok, sendMessageStreamInputSchema_ok in H.
    destruct H as (Hobj & Hm & Hs & Hc & Ha & Hb & Hr).
    split; [assumption|]. split.
    { apply z_min1_ok in Hm as [Hm Ht]. exists (message params).
      split; [assumption|]. now apply truthy_string_nonempty. }
    split; [apply z_optional_min1_accepts; eauto|].
    split; [apply z_optional_min1_accepts; eauto|].
    split.
    { apply z_optional_ok in Ha. destruct (allowedTools params) as [l|].
      - right. exists l. now apply z_array_string_ok.
      - now left. }
    split.
    { apply z_optional_ok in Hb. destruct (bypassPermissions params) as [b|].
      - right. exists b. now apply z_boolean_ok.
      - now left. }
    intros Hu Hcu.
    rewrite Hu in Hs. rewrite Hcu in Hc. simpl in Hs, Hc.
    injection Hs as Hs. injection Hc as Hc.
    unfold cwd_given_for_new_session in Hr. rewrite <- Hs, <- Hc in Hr.
    discriminate.
  - intros (Hobj & (m & Hm & Hmne) & Hs & Hc & Ha & Hb & Hr).
    apply z_optional_min1_accepts in Hs as [os Hs].
    apply z_optional_min1_accepts in Hc as [oc Hc].
    assert (Ha' : exists oa,
               z_optional (z_array z_string) (js_get input "allowedTools")
               = ok oa).
    { destruct Ha as [->|[l ->]]; [now exists None|].
      exists (Some l). apply z_optional_ok. split; [discriminate|].
      now apply z_array_string_ok. }
    destruct Ha' as [oa Ha'].
    assert (Hb' : exists ob,
               z_optional z_boolean (js_get input "bypassPermissions") = ok ob).
    { destruct Hb as [->|[b ->]]; [now exists None|now exists (Some b)]. }
    destruct Hb' as [ob Hb'].
    assert (E : sendMessageStreamInputSchema input
                = ok {| message := m; sessionId := os; cwd := oc;
                        allowedTools := oa; bypassPermissions := ob |}).
    { apply sendMessageStreamInputSchema_ok. simpl.
      split; [assumption|]. split.
      { apply z_min1_ok. split; [assumption|].
        now apply truthy_string_nonempty. }
      repeat (split; [assumption|]).
      unfold cwd_given_for_new_session. simpl.
      pose proof Hs as Hs'. pose proof Hc as Hc'.
      apply z_optional_ok in Hs', Hc'.
      destruct os as [s|].
      - destruct Hs' as [_ Hs']. apply z_min1_ok in Hs' as [_ Ht].
        destruct s; [discriminate|reflexivity].
      - destruct oc as [c|].
        + destruct Hc' as [_ Hc']. apply z_min1_ok in Hc' as [_ Ht].
          destruct c; [discriminate|reflexivity].
        + exfalso. now apply Hr. }
    unfold validate. now rewrite E.
Qed.


(* ===================================================================== *)
(** ** More on the schemas of the permission protocol *)
(* ===================================================================== *)

Lemma name_char_is_no_line_terminator (c : code_unit) :
  name_char c = true -> Regex.dot c = true.
Proof.
  unfold name_char, Regex.in_range, Regex.is_char, Regex.dot,
    Regex.line_terminator. simpl.
  intros H.
  destruct (N.eqb c 10) eqn:E1; [apply N.eqb_eq in E1; subst; discriminate|].
  destruct (N.eqb c 13) eqn:E2; [apply N.eqb_eq in E2; subst; discriminate|].
  destruct (N.eqb c 8232) eqn:E3; [apply N.eqb_eq in E3; subst; discriminate|].
  destruct (N.eqb c 8233) eqn:E4; [apply N.eqb_eq in E4; subst; discriminate|].
  reflexivity.
Qed.

Lemma name_start_is_name_char (c : code_unit) :
  name_start c = true -> name_char c = true.
Proof.
  unfold name_start, name_char. intros H.
  apply orb_true_iff in H as [H|H]; [|now rewrite H, !orb_true_r].
  now rewrite H.
Qed.

(** X10. [allowedToolSchema] accepts the strings of the ToolGrant pattern and
    no other value: for instance no number, and no string with an empty
    argument body. *)
Theorem tool_grant_accepted_iff (v : JsValue) :
  isOk (allowedToolSchema v) = true <-> exists s, v = JsString s /\ ToolGrant s.
Proof.
  split.
  - destruct (allowedToolSchema v) as [s|e] eqn:E; [intros _|discriminate].
    exists s. now apply allowedToolSchema_ok.
  - intros (s & Hv & Hg).
    assert (E : allowedToolSchema v = ok s) by (apply allowedToolSchema_ok; auto).
    now rewrite E.
Qed.

(** X11. An accepted tool grant is one line of at least four code units that
    ends with a closing parenthesis: the pattern admits no line terminator
    anywhere, and neither an empty name nor an empty argument body. *)
Theorem accepted_tool_grant_is_one_line (v : JsValue) (s : jsstring) :
  allowedToolSchema v = ok s ->
  4 <= length s
  /\ forallb Regex.dot s = true
  /\ last s 0%N = 41%N.
Proof.
  intros H. apply allowedToolSchema_ok in H as [_ Hg].
  destruct Hg as (c & name & body & -> & Hc & Hn & Hne & Hb).
  split; [|split].
  - destruct body as [|b body]; [congruence|].
    simpl. rewrite !length_app. simpl. rewrite !length_app. simpl. lia.
  - simpl. rewrite forallb_app. simpl. rewrite forallb_app. simpl.
    rewrite Hb, (name_char_is_no_line_terminator _ (name_start_is_name_char _ Hc)).
    simpl. rewrite andb_true_r. clear - Hn.
    induction name as [|a name IH]; simpl in *; [reflexivity|].
    apply andb_true_iff in Hn as [Ha Hn].
    now rewrite (name_char_is_no_line_terminator _ Ha), IH.
  - rewrite app_comm_cons, !app_assoc. change (js ")") with [41%N].
    apply last_last.
Qed.

(** X12. The directives that [continueMessageSchema] accepts: the objects whose
    [message] is the string "continue" and whose [allowedTools] is an array
    of tool grants. The array is required (a directive without it is
    rejected) and may be empty. *)
Theorem continue_directive_accepted_iff (v : JsValue) :
  (isOk (continueMessageSchema v) = true <->
   (exists fields, v = JsObject fields)
   /\ js_get v "message" = JsString (js "continue")
   /\ exists l, js_get v "allowedTools" = JsArray (map JsString l)
                /\ Forall ToolGrant l)
  /\ (js_get v "allowedTools" = JsUndefined ->
      isErr (continueMessageSchema v) = true)
  /\ (forall fields,
        v = JsObject fields ->
        js_get v "message" = JsString (js "continue") ->
        js_get v "allowedTools" = JsArray [] ->
        continueMessageSchema v
        = ok {| cm_message := js "continue"; cm_allowedTools := [] |}).
Proof.
  assert (Hiff : isOk (continueMessageSchema v) = true <->
                 (exists fields, v = JsObject fields)
                 /\ js_get v "message" = JsString (js "continue")
                 /\ exists l, js_get v "allowedTools" = JsArray (map JsString l)
                              /\ Forall ToolGrant l).
  { split.
    - destruct (continueMessageSchema v) as [m|e] eqn:E; [intros _|discriminate].
      apply continueMessageSchema_ok in E as (Hobj & Hm & Ht).
      apply z_literal_ok in Hm as [Hm Hc]. rewrite Hc in Hm.
      apply z_array_allowedTool_ok in Ht as [Ht Hall].
      split; [assumption|]. split; [assumption|]. eauto.
    - intros (Hobj & Hm & l & Ht & Hall).
      assert (E : continueMessageSchema v
                  = ok {| cm_message := js "continue"; cm_allowedTools := l |}).
      { apply continueMessageSchema_ok. simpl. split; [assumption|]. split.
        - apply z_literal_ok. now split.
        - apply z_array_allowedTool_ok. now split. }
      now rewrite E. }
  split; [exact Hiff|]. split.
  - intros Hu.
    destruct (continueMessageSchema v) as [m|e] eqn:E; [|reflexivity].
    exfalso. apply continueMessageSchema_ok in E as (_ & _ & Ht).
    rewrite Hu in Ht. discriminate.
  - intros fields Hv Hm Ht.
    apply continueMessageSchema_ok. simpl. split; [eauto|]. split.
    + apply z_literal_ok. now split.
    + rewrite Ht. reflexivity.
Qed.

(** X13. What [permissionRequestSchema] accepts, and what it returns: an
    object with the strings [toolName] and [toolCommand] (any strings, the
    empty one included) and an object [originalToolUse] with the strings
    [id] and [name] and an object [input]; the entries of [input] are
    returned as they are, but for an own key [__proto__], which is skipped.
    Written as a runtime value and parsed again, a request comes back
    without that key, hence unchanged when it has none, and every request
    that the schema returned comes back unchanged. *)
Theorem permission_request_accepted_iff (v : JsValue) (r : PermissionRequest) :
  (permissionRequestSchema v = ok r <->
   (exists fields, v = JsObject fields)
   /\ js_get v "toolName" = JsString (toolName r)
   /\ js_get v "toolCommand" = JsString (toolCommand r)
   /\ exists ufields entries,
        js_get v "originalToolUse" = JsObject ufields
        /\ js_get (JsObject ufields) "id" = JsString (tu_id (originalToolUse r))
        /\ js_get (JsObject ufields) "name"
           = JsString (tu_name (originalToolUse r))
        /\ js_get (JsObject ufields) "input" = JsObject entries
        /\ tu_input (originalToolUse r) = without_proto entries)
  /\ permissionRequestSchema (PermissionRequest_to_js r)
     = ok (PermissionRequest_parsed r)
  /\ (existsb (fun kv => is_proto (fst kv)) (tu_input (originalToolUse r))
      = false ->
      permissionRequestSchema (PermissionRequest_to_js r) = ok r)
  /\ (permissionRequestSchema v = ok r ->
      permissionRequestSchema (PermissionRequest_to_js r) = ok r).
Proof.
  assert (Hiff : permissionRequestSchema v = ok r <->
     (exists fields, v = JsObject fields)
     /\ js_get v "toolName" = JsString (toolName r)
     /\ js_get v "toolCommand" = JsString (toolCommand r)
     /\ exists ufields entries,
          js_get v "originalToolUse" = JsObject ufields
          /\ js_get (JsObject ufields) "id"
             = JsString (tu_id (originalToolUse r))
          /\ js_get (JsObject ufields) "name"
             = JsString (tu_name (originalToolUse r))
          /\ js_get (JsObject ufields) "input" = JsObject entries
          /\ tu_input (originalToolUse r) = without_proto entries).
  { unfold permissionRequestSchema, toolTypeSchema.
    rewrite z_object_ok, z_map_ok. split.
    - intros [Hobj ((n & c & u) & Hx & <-)].
      apply z_and_ok in Hx as [Hn Hx]. apply z_and_ok in Hx as [Hc Hu].
      apply z_field_ok in Hn, Hc, Hu.
      apply z_string_ok in Hn, Hc.
      apply z_object_ok in Hu as [[ufields Hobj'] Hu].
      apply z_map_ok in Hu as ((i & nm & inp) & Hy & <-).
      apply z_and_ok in Hy as [Hi Hy]. apply z_and_ok in Hy as [Hnm Hinp].
      apply z_field_ok in Hi, Hnm, Hinp.
      apply z_string_ok in Hi, Hnm.
      rewrite Hobj' in Hi, Hnm, Hinp.
      simpl. split; [assumption|]. split; [assumption|]. split; [assumption|].
      unfold z_record in Hinp.
      destruct (js_get (JsObject ufields) "input") as [| | | | | |entries]
        eqn:Einp; try discriminate.
      rewrite parse_entries_any in Hinp. injection Hinp as <-.
      exists ufields, entries. split; [assumption|]. split; [assumption|].
      split; [assumption|]. split; [exact Einp|reflexivity].
    - intros (Hobj & Hn & Hc & ufields & entries & Hu & Hi & Hnm & Hinp & He).
      split; [assumption|].
      exists (toolName r, (toolCommand r, originalToolUse r)).
      split; [|now destruct r].
      apply z_and_ok. split; [apply z_field_ok; now rewrite Hn|].
      apply z_and_ok. split; [apply z_field_ok; now rewrite Hc|].
      apply z_field_ok. rewrite Hu.
      apply z_object_ok. split; [eauto|].
      apply z_map_ok.
      exists (tu_id (originalToolUse r),
              (tu_name (originalToolUse r), tu_input (originalToolUse r))).
      split; [|now destruct (originalToolUse r)].
      apply z_and_ok. split; [apply z_field_ok; now rewrite Hi|].
      apply z_and_ok. split; [apply z_field_ok; now rewrite Hnm|].
      apply z_field_ok. rewrite Hinp. simpl. rewrite He.
      apply parse_entries_any. }
  assert (Hnone : forall r0 : PermissionRequest,
             without_proto (tu_input (originalToolUse r0))
             = tu_input (originalToolUse r0) ->
             permissionRequestSchema (PermissionRequest_to_js r0) = ok r0).
  { intros r0 H. rewrite permissionRequestSchema_to_js.
    unfold PermissionRequest_parsed. rewrite H.
    destruct r0 as [n c [i nm inp]]. reflexivity. }
  split; [exact Hiff|]. split; [apply permissionRequestSchema_to_js|]. split.
  - intros Hno. apply Hnone. now apply without_proto_none.
  - intros Hv. apply Hnone.
    apply Hiff in Hv as (_ & _ & _ & ufields & entries & _ & _ & _ & _ & He).
    rewrite He. apply without_proto_idempotent.
Qed.

(** X14. What [authorizationStateSchema] accepts: an object whose
    [isWaitingForPermission] is a boolean and whose [pendingRequest] is
    [null] or a permission request. [pendingRequest] is nullable and not
    optional: a state that leaves it out is rejected. *)
Theorem authorization_state_accepted_iff (v : JsValue) (a : AuthorizationState) :
  (authorizationStateSchema v = ok a <->
   (exists fields, v = JsObject fields)
   /\ js_get v "isWaitingForPermission" = JsBoolean (isWaitingForPermission a)
   /\ match pendingRequest a with
      | None => js_get v "pendingRequest" = JsNull
      | Some r => permissionRequestSchema (js_get v "pendingRequest") = ok r
      end)
  /\ (js_get v "pendingRequest" = JsUndefined ->
      isErr (authorizationStateSchema v) = true).
Proof.
  assert (Hiff : authorizationStateSchema v = ok a <->
                 (exists fields, v = JsObject fields)
                 /\ js_get v "isWaitingForPermission"
                    = JsBoolean (isWaitingForPermission a)
                 /\ z_nullable permissionRequestSchema (js_get v "pendingRequest")
                    = ok (pendingRequest a)).
  { unfold authorizationStateSchema. rewrite z_object_ok, z_map_ok. split.
    - intros [Hobj ((b & p) & Hx & <-)].
      apply z_and_ok in Hx as [Hb Hp]. apply z_field_ok in Hb, Hp.
      apply z_boolean_ok in Hb. simpl. tauto.
    - intros (Hobj & Hb & Hp). split; [assumption|].
      exists (isWaitingForPermission a, pendingRequest a).
      split; [|now destruct a].
      apply z_and_ok. split; apply z_field_ok; [now rewrite Hb|assumption]. }
  split.
  - rewrite Hiff, z_nullable_ok.
    destruct (pendingRequest a) as [r|]; [|tauto].
    split; [tauto|]. intros (Hobj & Hb & Hp).
    split; [assumption|]. split; [assumption|]. split; [|assumption].
    intros Hn. rewrite Hn in Hp. discriminate.
  - intros Hu.
    destruct (authorizationStateSchema v) as [a'|e] eqn:E; [|reflexivity].
    exfalso. unfold authorizationStateSchema in E.
    apply z_object_ok in E as [_ E]. apply z_map_ok in E as ((b & p) & Hx & _).
    apply z_and_ok in Hx as [_ Hp]. apply z_field_ok in Hp.
    rewrite Hu in Hp. discriminate.
Qed.

(* ===================================================================== *)
(** ** Properties of [listProjects] *)
(* ===================================================================== *)

Section ListProjectsProperties.

Variables (W ListProjectQuery Project : Type).
Variable listProjectQuerySchema : ZodType ListProjectQuery.
Variable context : ProjectContext W ListProjectQuery Project.


(** X16. When the repository answers, its page is returned as it is and
    nothing is logged; its error is returned as "Failed to list projects"
    wrapping it, and logged once. *)
Theorem page_is_passed_and_error_is_wrapped
  (query : JsValue) (w : W) (value : ListProjectQuery)
  (result : Result (Projects.Page Project) JsValue) (w1 : W) :
  validate listProjectQuerySchema query = ok value ->
  projectRepository_list context value w = (Fulfilled result, w1) ->
  listProjects listProjectQuerySchema context query
    {| project_world := w; project_trace := [] |}
  = match result with
    | ok page =>
        (Fulfilled (ok page),
         {| project_world := w1;
            project_trace := [ProjectRepositoryList value] |})
    | err e =>
        (Fulfilled (err {| error_message := "Failed to list projects";
                           error_cause := Some (CauseError e) |}),
         {| project_world := w1;
            project_trace :=
              [ProjectRepositoryList value;
               ProjectConsoleError "[listProjects] Repository operation failed"
                 {| error_message := "Failed to list projects";
                    error_cause := Some (CauseError e) |}] |})
    end.
Proof.
  intros Hv Hl. unfold listProjects. rewrite Hv. simpl. rewrite Hl.
  destruct result; reflexivity.
Qed.

(** X17. The use case has no [try]: its promise rejects exactly when the
    repository call rejects, with the same fault, and nothing is logged
    then. *)
Theorem listProjects_rejects_iff_repository_rejects
  (query : JsValue) (w : W) (t : Thrown) :
  fst (listProjects listProjectQuerySchema context query
         {| project_world := w; project_trace := [] |})
  = Rejected t
  <-> exists value,
        validate listProjectQuerySchema query = ok value
        /\ fst (projectRepository_list context value w) = Rejected t.
Proof.
  destruct (validate listProjectQuerySchema query) as [value|e] eqn:Hv.
  - destruct (projectRepository_list context value w) as [[r|t'] w1] eqn:Hl.
    + split.
      * unfold listProjects, mapErr. rewrite Hv. simpl. rewrite Hl.
        destruct r; discriminate.
      * intros (value' & Hv' & H). injection Hv' as <-.
        rewrite Hl in H. discriminate.
    + split.
      * unfold listProjects. rewrite Hv. simpl. rewrite Hl. simpl.
        intros H. injection H as ->. exists value. rewrite Hl. now split.
      * intros (value' & Hv' & H). injection Hv' as <-.
        rewrite Hl in H. simpl in H. injection H as ->.
        unfold listProjects. rewrite Hv. simpl. now rewrite Hl.
  - split.
    + unfold listProjects. rewrite Hv. discriminate.
    + intros (value & Hv' & _). discriminate.
Qed.

End ListProjectsProperties.

(* ===================================================================== *)
(** ** More concrete runs *)
(* ===================================================================== *)

(** An agent that answers with an error: the error returned is the fourth
    of the six. *)
Lemma agent_error_is_one_of_the_six :
  (error_message Scenario.overloaded = "Invalid input"
   /\ exists v, error_cause Scenario.overloaded = Some (CauseValidation v))
  \/ (error_message Scenario.overloaded = "Failed to get session"
      /\ exists c, error_cause Scenario.overloaded = Some (CauseError c))
  \/ (error_message Scenario.overloaded = "Session not found"
      /\ error_cause Scenario.overloaded = None)
  \/ (error_message Scenario.overloaded = "Failed to send message to Claude"
      /\ exists c, error_cause Scenario.overloaded = Some (CauseError c))
  \/ (error_message Scenario.overloaded = "Failed to create session"
      /\ exists c, error_cause Scenario.overloaded = Some (CauseError c))
  \/ (error_message Scenario.overloaded = "Unexpected error in sendMessageStream"
      /\ exists t, error_cause Scenario.overloaded = Some (CauseThrown t)).
Proof.
  exact (proj1 (@returned_errors_are_six Stub.World jsstring
                  (Stub.context Scenario.agent_fails) Stub.onChunk
                  Stub.new_session_input Stub.empty)
           Scenario.overloaded eq_refl).
Defined.

(** Each of the seven shapes is the shape of some call. *)
Lemma each_of_the_seven_shapes_occurs :
  call_kinds (trace (snd (run (Stub.context (Stub.answering [Stub.result_abc]))
                            Stub.bare_input Stub.onChunk Stub.empty)))
  = []
  /\ call_kinds (trace (snd (run (Stub.context
                                    (Stub.answering [Stub.result_abc]))
                               Stub.existing_session_input Stub.onChunk
                               Stub.empty)))
     = [Lookup]
  /\ call_kinds (trace (snd (run (Stub.context Scenario.agent_fails)
                               Stub.existing_session_input Stub.onChunk
                               (Stub.holding [Stub.s1]))))
     = [Lookup; Agent]
  /\ call_kinds (trace (snd (run (Stub.context
                                    (Stub.answering [Stub.result_abc]))
                               Stub.existing_session_input Stub.onChunk
                               (Stub.holding [Stub.s1]))))
     = [Lookup; Agent; Write]
  /\ call_kinds (trace (snd (run (Stub.context Scenario.agent_fails)
                               Stub.new_session_input Stub.onChunk Stub.empty)))
     = [Agent]
  /\ call_kinds (trace (snd (run (Stub.context Stub.first_upsert_fails)
                               Stub.new_session_input Stub.onChunk Stub.empty)))
     = [Agent; Write]
  /\ call_kinds (trace (snd (run (Stub.context
                                    (Stub.answering [Stub.result_abc]))
                               Stub.new_session_input Stub.onChunk Stub.empty)))
     = [Agent; Write; Write].
Proof. repeat split. Qed.

(** The example of the specification once more: the call succeeds, the
    agent was called, and the last event is the write of the session. *)
Lemma successful_call_ends_with_a_write :
  exists p s,
    In (ClaudeSendMessageStream p)
       (trace (snd (run (Stub.context (Stub.answering [Stub.result_abc]))
                      Stub.new_session_input Stub.onChunk Stub.empty)))
    /\ (exists w0 w1,
          claudeService_sendMessageStream
            (Stub.context (Stub.answering [Stub.result_abc])) p Stub.onChunk w0
          = (Fulfilled (ok [Stub.result_abc]), w1))
    /\ hd_error (rev (trace (snd (run (Stub.context
                                        (Stub.answering [Stub.result_abc]))
                                     Stub.new_session_input Stub.onChunk
                                     Stub.empty))))
       = Some (Upsert s)
    /\ ((exists e w0 w1,
           sessionRepository_upsert
             (Stub.context (Stub.answering [Stub.result_abc])) s w0
           = (Fulfilled (err e), w1)
           /\ Stub.abc = s)
        \/ exists w0 w1,
             sessionRepository_upsert
               (Stub.context (Stub.answering [Stub.result_abc])) s w0
             = (Fulfilled (ok Stub.abc), w1)).
Proof.
  exact (@success_returns_agent_messages_after_a_write Stub.World jsstring
           (Stub.context (Stub.answering [Stub.result_abc])) Stub.onChunk
           Stub.new_session_input Stub.empty
           {| session := Stub.abc; messages := [Stub.result_abc] |} eq_refl).
Defined.

(** The agent answers with an error, on a new conversation and on the
    conversation "s1". *)
Lemma agent_error_example :
  run (Stub.context Scenario.agent_fails) Stub.new_session_input Stub.onChunk
    Stub.empty
  = (Fulfilled (err {| error_message := "Failed to send message to Claude";
                       error_cause :=
                         Some (CauseError (Stub.str "overloaded")) |}),
     {| world := Stub.empty;
        trace := [ClaudeSendMessageStream
                    (claudeParams Stub.new_session_params None);
                  ConsoleError
                    "[sendMessageStream] Claude API streaming call failed"
                    {| error_message := "Failed to send message to Claude";
                       error_cause :=
                         Some (CauseError (Stub.str "overloaded")) |}] |})
  /\ run (Stub.context Scenario.agent_fails) Stub.existing_session_input
       Stub.onChunk (Stub.holding [Stub.s1])
     = (Fulfilled (err {| error_message := "Failed to send message to Claude";
                          error_cause :=
                            Some (CauseError (Stub.str "overloaded")) |}),
        {| world := Stub.holding [Stub.s1];
           trace := [FindById (js "s1");
                     ClaudeSendMessageStream
                       (claudeParams Stub.existing_session_params
                          (Some Stub.s1));
                     ConsoleError
                       "[sendMessageStream] Claude API streaming call failed"
                       {| error_message := "Failed to send message to Claude";
                          error_cause :=
                            Some (CauseError (Stub.str "overloaded")) |}] |}).
Proof.
  split.
  - exact (proj1 (@agent_error_is_returned_and_nothing_written Stub.World
             jsstring (Stub.context Scenario.agent_fails) Stub.onChunk
             Stub.new_session_input Stub.empty Stub.new_session_params
             (Stub.str "overloaded") eq_refl)
           Stub.empty eq_refl eq_refl).
  - exact (proj2 (@agent_error_is_returned_and_nothing_written Stub.World
             jsstring (Stub.context Scenario.agent_fails) Stub.onChunk
             Stub.existing_session_input (Stub.holding [Stub.s1])
             Stub.existing_session_params (Stub.str "overloaded") eq_refl)
           (js "s1") Stub.s1 (Stub.holding [Stub.s1]) (Stub.holding [Stub.s1])
           eq_refl eq_refl eq_refl).
Defined.

(** The conversation "s1", stored with the [cwd] "/work", continued from
    "/elsewhere": the agent works in "/elsewhere" and the store is written
    "/work". *)
Lemma moved_conversation_keeps_its_stored_cwd :
  run (Stub.context (Stub.answering [Stub.result_abc])) Scenario.moved_input
    Stub.onChunk (Stub.holding [Stub.s1])
  = (Fulfilled (ok {| session := Stub.s1; messages := [Stub.result_abc] |}),
     {| world := Scenario.after_write [Stub.s1];
        trace := [FindById (js "s1");
                  ClaudeSendMessageStream
                    {| Claude.message := js "go";
                       Claude.sessionId := Some (js "s1");
                       Claude.cwd := Some (js "/elsewhere");
                       Claude.allowedTools := None;
                       Claude.bypassPermissions := None |};
                  Upsert Stub.s1] |}).
Proof.
  exact (@existing_session_is_written_back_unchanged Stub.World jsstring
           (Stub.context (Stub.answering [Stub.result_abc])) Stub.onChunk
           Scenario.moved_input (Stub.holding [Stub.s1]) Scenario.moved_params
           (js "s1") Stub.s1 Stub.s1 [Stub.result_abc]
           (Stub.holding [Stub.s1]) (Scenario.after_agent [Stub.s1])
           (Scenario.after_write [Stub.s1])
           eq_refl eq_refl eq_refl eq_refl eq_refl).
Defined.



(** "Bash(ls -la)" is a tool grant. *)
Lemma bash_grant_is_one_line :
  4 <= length (js "Bash(ls -la)")
  /\ forallb Regex.dot (js "Bash(ls -la)") = true
  /\ last (js "Bash(ls -la)") 0%N = 41%N.
Proof.
  exact (@accepted_tool_grant_is_one_line (Stub.str "Bash(ls -la)")
           (js "Bash(ls -la)") eq_refl).
Defined.

(** A listing of two projects, and a repository that fails. *)
Lemma listing_example :
  listProjects StubProjects.querySchema StubProjects.listing StubProjects.ten
    (StubProjects.start [js "alpha"; js "beta"])
  = (Fulfilled (ok (StubProjects.page [js "alpha"; js "beta"])),
     {| project_world := [js "alpha"; js "beta"];
        project_trace := [ProjectRepositoryList (js "10")] |})
  /\ listProjects StubProjects.querySchema StubProjects.failing StubProjects.ten
       (StubProjects.start [])
     = (Fulfilled (err {| error_message := "Failed to list projects";
                          error_cause := Some (CauseError Stub.db_error) |}),
        {| project_world := [];
           project_trace :=
             [ProjectRepositoryList (js "10");
              ProjectConsoleError "[listProjects] Repository operation failed"
                {| error_message := "Failed to list projects";
                   error_cause := Some (CauseError Stub.db_error) |}] |}).
Proof.
  split.
  - exact (@page_is_passed_and_error_is_wrapped (list jsstring) jsstring
             jsstring StubProjects.querySchema StubProjects.listing
             StubProjects.ten [js "alpha"; js "beta"] (js "10")
             (ok (StubProjects.page [js "alpha"; js "beta"]))
             [js "alpha"; js "beta"] eq_refl eq_refl).
  - exact (@page_is_passed_and_error_is_wrapped (list jsstring) jsstring
             jsstring StubProjects.querySchema StubProjects.failing
             StubProjects.ten [] (js "10") (err Stub.db_error) []
             eq_refl eq_refl).
Defined.

(** A repository that throws: the promise of [listProjects] rejects. *)
Lemma throwing_repository_rejects :
  fst (listProjects StubProjects.querySchema StubProjects.throwing
         StubProjects.ten (StubProjects.start []))
  = Rejected (ThrownValue Stub.db_error).
Proof.
  apply (proj2 (@listProjects_rejects_iff_repository_rejects (list jsstring)
                  jsstring jsstring StubProjects.querySchema
                  StubProjects.throwing StubProjects.ten []
                  (ThrownValue Stub.db_error))).
  exists (js "10"). split; reflexivity.
Defined.

(** The record [{"__proto__":"x", "b":"y"}] as the [input] of a request:
    the schema returns the entry [b] alone. *)
Lemma proto_entry_is_skipped :
  z_record z_string z_any
    (JsObject [(js "__proto__", Stub.str "x"); (js "b", Stub.str "y")])
  = ok [(js "b", Stub.str "y")].
Proof. reflexivity. Qed.
